(** * ClickHouse OpenTelemetry instrumentation: a shallow embedding

    The development follows [src/types.ts] (class
    [ClickHouseInstrumentation]), [src/internal_types.ts] (the shapes of
    the client and of the call parameters) and the constants module.

    Layout:
    - [JsString]: the ECMAScript string primitives the source calls
      ([trim], [toUpperCase], [startsWith], [substring]) and a small
      backtracking matcher for the regular-expression literals that occur
      in the source;
    - [Analyzer]: [#normalizeQuery], [#parseTableFromQuery],
      [#extractTableName], [#extractQueryText];
    - [Attributes]: the configuration, the client and [#buildAttributes];
    - [Lifecycle]: the tracer, the ambient context, [#endSpan],
      [#callOriginalFunction] and the function returned by
      [#createWrapper];
    - [Interceptor]: [#wrapMethod] and the patch/unpatch callbacks of
      [init];
    - [AnalyzerSpec]: the analyzer as the specification words it;
    - [Observe], [Aux], [Samples]: vocabulary of the statements,
      auxiliary definitions of the proofs, sample data;
    - the results, component by component.

    Text is a Rocq [string]: a sequence of code units below 256, read as
    the Latin-1 range of ECMAScript's UTF-16 code units. *)

From Stdlib Require Import Ascii String ZArith Bool Lia.
From stdpp Require Import gmap strings list.

Local Open Scope N_scope.

(* ===================================================================== *)
(** * ECMAScript strings                                                  *)
(* ===================================================================== *)

Module JsString.

Definition code (c : ascii) : N := N_of_ascii c.

Definition between (lo hi : N) (c : ascii) : bool :=
  (lo <=? code c) && (code c <=? hi).

(** [WhiteSpace] and [LineTerminator] code points below 256: TAB, LF, VT,
    FF, CR, SPACE and NO-BREAK SPACE.  This is the set matched by [\s] and
    removed by [String.prototype.trim]. *)
Definition isSpace (c : ascii) : bool :=
  between 9 13 c || (code c =? 32) || (code c =? 160).

(** [\w]: the basic word characters [A-Za-z0-9_] (the regular expressions
    of the source carry no [u] flag). *)
Definition isWordChar (c : ascii) : bool :=
  between 65 90 c || between 97 122 c || between 48 57 c || (code c =? 95).

(** The delimiter class of the patterns: backtick or double quote. *)
Definition isQuote (c : ascii) : bool :=
  (code c =? 96) || (code c =? 34).

(** The class [[\w.]]. *)
Definition isIdentChar (c : ascii) : bool :=
  isWordChar c || (code c =? 46).

(** Simple (one code unit to one code unit) upper-casing.  Lower-case
    ASCII and Latin-1 letters move down by 32.  The code units 181 and 255
    have upper-case forms above 255 and 223 has a two-letter one; they are
    left in place here (223 is expanded by [toUpperCase] below). *)
Definition upperChar (c : ascii) : ascii :=
  if between 97 122 c || (between 224 254 c && negb (code c =? 247))
  then ascii_of_N (code c - 32)
  else c.

(** [Canonicalize] of the regular-expression semantics under the [i] flag
    without the [u] flag: the simple upper-case form, except that a code
    unit above 127 is never mapped into ASCII. *)
Definition canonicalize (c : ascii) : ascii := upperChar c.

(** [String.prototype.toUpperCase]. *)
Fixpoint toUpperCase (s : string) : string :=
  match s with
  | EmptyString => EmptyString
  | String c s' =>
      if code c =? 223 then String "S" (String "S" (toUpperCase s'))
      else String (upperChar c) (toUpperCase s')
  end.

Fixpoint dropWhile (p : ascii -> bool) (s : string) : string :=
  match s with
  | EmptyString => EmptyString
  | String c s' => if p c then dropWhile p s' else s
  end.

Fixpoint takeWhile (p : ascii -> bool) (s : string) : string :=
  match s with
  | EmptyString => EmptyString
  | String c s' => if p c then String c (takeWhile p s') else EmptyString
  end.

Fixpoint allChars (p : ascii -> bool) (s : string) : bool :=
  match s with
  | EmptyString => true
  | String c s' => p c && allChars p s'
  end.

(** Removal of trailing white space. *)
Fixpoint trimEnd (s : string) : string :=
  match s with
  | EmptyString => EmptyString
  | String c s' =>
      if isSpace c && allChars isSpace s' then EmptyString
      else String c (trimEnd s')
  end.

(** [String.prototype.trim]. *)
Definition trim (s : string) : string := trimEnd (dropWhile isSpace s).

(** [String.prototype.startsWith]. *)
Fixpoint startsWith (p s : string) : bool :=
  match p, s with
  | EmptyString, _ => true
  | String a p', String b s' => (code a =? code b) && startsWith p' s'
  | String _ _, EmptyString => false
  end.

(** [s.substring(0, n)] for a natural [n]: the first [n] code units. *)
Fixpoint take (n : nat) (s : string) : string :=
  match n, s with
  | S n', String c s' => String c (take n' s')
  | _, _ => EmptyString
  end.

(** JavaScript truthiness of a string: it is not empty. *)
Definition truthy (s : string) : bool :=
  match s with EmptyString => false | String _ _ => true end.

(** ** Regular expressions

    The patterns of the source are sequences of: the assertion [\b], a
    literal character (matched under the [i] flag), a character class, a
    class under [?] or [+] (both greedy), and the two parentheses of one
    capture group. *)

Inductive node :=
  | Boundary
  | Chr (c : ascii)
  | One (cls : ascii -> bool)
  | Opt (cls : ascii -> bool)
  | Plus (cls : ascii -> bool)
  | Open
  | Close.

(** Matcher state: the character before the current position, the text
    from the current position on, the text at the opening parenthesis,
    and the content of capture group 1. *)
Record mstate := MState {
  prev : option ascii;
  input : string;
  gstart : option string;
  group1 : option string
}.

Definition advance (st : mstate) (c : ascii) (s' : string) : mstate :=
  MState (Some c) s' (gstart st) (group1 st).

Definition isWordOpt (o : option ascii) : bool :=
  match o with Some c => isWordChar c | None => false end.

Definition headOf (s : string) : option ascii :=
  match s with EmptyString => None | String c _ => Some c end.

(** The text of [s] that lies before its suffix [rest]. *)
Definition consumed (s rest : string) : string :=
  take (String.length s - String.length rest)%nat s.

(** Greedy [cls+]: take one more character while possible; on the way
    back, try the rest of the pattern [k] after each shorter run. *)
Fixpoint plusLoop (cls : ascii -> bool) (k : ascii -> string -> option mstate)
    (s : string) : option mstate :=
  match s with
  | EmptyString => None
  | String c s' =>
      if cls c then
        match plusLoop cls k s' with
        | Some m => Some m
        | None => k c s'
        end
      else None
  end.

(** [exec r st]: the state after the first successful way (in
    backtracking order) of matching the whole of [r] from [st]. *)
Fixpoint exec (r : list node) (st : mstate) : option mstate :=
  match r with
  | [] => Some st
  | Boundary :: r' =>
      if xorb (isWordOpt (prev st)) (isWordOpt (headOf (input st)))
      then exec r' st else None
  | Chr p :: r' =>
      match input st with
      | String c s' =>
          if code (canonicalize c) =? code (canonicalize p)
          then exec r' (advance st c s') else None
      | EmptyString => None
      end
  | One cls :: r' =>
      match input st with
      | String c s' => if cls c then exec r' (advance st c s') else None
      | EmptyString => None
      end
  | Opt cls :: r' =>
      match input st with
      | String c s' =>
          if cls c then
            match exec r' (advance st c s') with
            | Some m => Some m
            | None => exec r' st
            end
          else exec r' st
      | EmptyString => exec r' st
      end
  | Plus cls :: r' =>
      plusLoop cls (fun c s' => exec r' (advance st c s')) (input st)
  | Open :: r' =>
      exec r' (MState (prev st) (input st) (Some (input st)) (group1 st))
  | Close :: r' =>
      exec r'
        (MState (prev st) (input st) (gstart st)
           (match gstart st with
            | Some g => Some (consumed g (input st))
            | None => group1 st
            end))
  end.

Definition start (p : option ascii) (s : string) : mstate :=
  MState p s None None.

(** The leftmost match: try every start position from left to right. *)
Fixpoint search (r : list node) (p : option ascii) (s : string)
    : option mstate :=
  match exec r (start p s) with
  | Some m => Some m
  | None =>
      match s with
      | EmptyString => None
      | String c s' => search r (Some c) s'
      end
  end.

(** [s.match(re)] for a pattern without the [g] flag; the result keeps
    what the source reads from the match array, element [1]. *)
Definition jsMatch (r : list node) (s : string) : option (option string) :=
  match search r None s with
  | Some m => Some (group1 m)
  | None => None
  end.

(** [s.replace(re, rep)] for a pattern with the [g] flag whose matches are
    never empty.  [skip] counts the characters of the current match that
    are still to be dropped. *)
Fixpoint replaceFrom (r : list node) (rep : string) (p : option ascii)
    (skip : nat) (s : string) : string :=
  match s with
  | EmptyString => EmptyString
  | String c s' =>
      match skip with
      | S k => replaceFrom r rep (Some c) k s'
      | O =>
          match exec r (start p s) with
          | Some m =>
              match (String.length s - String.length (input m))%nat with
              | S k => rep +:+ replaceFrom r rep (Some c) k s'
              | O => String c (replaceFrom r rep (Some c) O s')
              end
          | None => String c (replaceFrom r rep (Some c) O s')
          end
      end
  end.

Definition replaceAll (r : list node) (rep : string) (s : string) : string :=
  replaceFrom r rep None O s.

End JsString.

(* ===================================================================== *)
(** * Query analyzer                                                      *)
(* ===================================================================== *)

Module Analyzer.
Import JsString.

(** [QueryParams] and [InsertParams] of [internal_types.ts]; every field
    is optional.  [InsertParams] extends [QueryParams], so one record with
    an optional [table] covers both. *)
Record Params := MkParams {
  query : option string;
  query_id : option string;
  table : option string
}.

(** ['f' in params && params.f]: the field is there and is not empty. *)
Definition field (f : option string) : option string :=
  match f with
  | Some s => if truthy s then Some s else None
  | None => None
  end.

(** The characters of a literal keyword, each matched under the [i] flag. *)
Fixpoint lit (w : string) : list node :=
  match w with
  | EmptyString => []
  | String c w' => Chr c :: lit w'
  end.

(** The capture group shared by the four patterns: an optional delimiter,
    one or more word characters or dots, an optional delimiter. *)
Definition identGroup : list node :=
  [Open; Opt isQuote; Plus isIdentChar; Opt isQuote; Close].

(** The four pattern literals of [#parseTableFromQuery], in source order. *)
Definition reFrom : list node :=
  Boundary :: lit "FROM" ++ Plus isSpace :: identGroup.

Definition reInsertInto : list node :=
  Boundary :: lit "INSERT" ++ Plus isSpace :: lit "INTO"
    ++ Plus isSpace :: identGroup.

Definition reUpdate : list node :=
  Boundary :: lit "UPDATE" ++ Plus isSpace :: identGroup.

Definition reDeleteFrom : list node :=
  Boundary :: lit "DELETE" ++ Plus isSpace :: lit "FROM"
    ++ Plus isSpace :: identGroup.

(** The pattern of [#normalizeQuery] and the one that strips delimiters,
    both used with the [g] flag. *)
Definition reSpaces : list node := [Plus isSpace].
Definition reQuote : list node := [One isQuote].

(** [m[1].replace(re, '')] with [re] the delimiter class under the [g]
    flag.  In the four patterns the group takes part in every match (see
    [jsMatch_group_set]); an unset group reads as the empty text here. *)
Definition stripDelims (g : option string) : string :=
  replaceAll reQuote EmptyString (default EmptyString g).

(** [#normalizeQuery] *)
Definition normalizeQuery (q : string) : string :=
  trim (replaceAll reSpaces " " q).

(** [#parseTableFromQuery] *)
Definition parseTableFromQuery (q : string) : option string :=
  if negb (truthy q) then None else
  let normalized := toUpperCase (trim q) in
  match jsMatch reFrom q with
  | Some g => Some (stripDelims g)
  | None =>
  match jsMatch reInsertInto q with
  | Some g => Some (stripDelims g)
  | None =>
  match (if startsWith "UPDATE" normalized then jsMatch reUpdate q
         else None) with
  | Some g => Some (stripDelims g)
  | None =>
  match (if startsWith "DELETE" normalized then jsMatch reDeleteFrom q
         else None) with
  | Some g => Some (stripDelims g)
  | None => None
  end end end end.

(** [#extractTableName]; [None] for the params is [undefined], [None] for
    the result is [null]. *)
Definition extractTableName (params : option Params) (operation : string)
    : option string :=
  match params with
  | None => None
  | Some p =>
      match (if String.eqb operation "insert" then field (table p)
             else None) with
      | Some t => Some (trim t)
      | None =>
          match field (query p) with
          | Some q => parseTableFromQuery q
          | None => None
          end
      end
  end.

(** [#extractQueryText] *)
Definition extractQueryText (params : option Params) (operation : string)
    : string :=
  match params with
  | None => operation
  | Some p =>
      match field (query p) with
      | Some q => normalizeQuery q
      | None =>
          match field (table p) with
          | Some t => "INSERT INTO " +:+ t
          | None => operation
          end
      end
  end.

End Analyzer.


(* ===================================================================== *)
(** * Attribute builder                                                   *)
(* ===================================================================== *)

Module Attributes.
Import JsString.

Local Open Scope Z_scope.

(** The attribute keys of the constants module. *)
Definition ATTR_DB_SYSTEM_NAME : string := "db.system.name".
Definition ATTR_DB_QUERY_TEXT : string := "db.query.text".
Definition ATTR_DB_OPERATION_NAME : string := "db.operation.name".
Definition ATTR_DB_NAMESPACE : string := "db.namespace".
Definition ATTR_DB_COLLECTION_NAME : string := "db.collection.name".
Definition ATTR_SERVER_ADDRESS : string := "server.address".
Definition ATTR_SERVER_PORT : string := "server.port".
Definition ATTR_DB_SYSTEM : string := "db.system".
Definition ATTR_DB_STATEMENT : string := "db.statement".
Definition ATTR_DB_OPERATION : string := "db.operation".
Definition ATTR_DB_NAME : string := "db.name".

(** [ClickHouseInstrumentationConfig] as [getConfig] returns it.  The two
    flags are read for their truthiness only; [maxQueryLength] may be
    [undefined] (the source guards it with [?? 2048]). *)
Record Config := MkConfig {
  maxQueryLength : option Z;
  requireParentSpan : bool;
  suppressInternalInstrumentation : bool
}.

Definition DEFAULT_CONFIG : Config := MkConfig (Some 2048) false true.

(** The part of a [URL] object the source reads. *)
Record URL := MkURL { hostname : string; port : string }.

Record ConnectionParams := MkConn {
  url : option URL;
  database : option string
}.

(** [ClickHouseClient] of [internal_types.ts]. *)
Record ClickHouseClient := MkClient {
  connectionParams : option ConnectionParams
}.

(** A JavaScript number as far as the source produces one: an integer or
    [NaN].  (A double holds every integer below 2^53 exactly.) *)
Inductive number := NaN | Num (z : Z).

Inductive attrValue := AStr (s : string) | ANum (n : number).

Definition isDigit (c : ascii) : bool := between 48 57 c.

Fixpoint digitsValue (acc : Z) (s : string) : Z :=
  match s with
  | EmptyString => acc
  | String c s' => digitsValue (10 * acc + (Z.of_N (code c) - 48)) s'
  end.

(** [Number.parseInt(s, 10)]: skip leading white space, read a sign, read
    the longest run of decimal digits; [NaN] when that run is empty. *)
Definition parseInt10 (s : string) : number :=
  let s1 := dropWhile isSpace s in
  let '(neg, s2) :=
    match s1 with
    | String c r =>
        if (code c =? 45)%N then (true, r)
        else if (code c =? 43)%N then (false, r)
        else (false, s1)
    | EmptyString => (false, s1)
    end in
  let ds := takeWhile isDigit s2 in
  if truthy ds
  then Num (if neg then - digitsValue 0 ds else digitsValue 0 ds)
  else NaN.

(** [#buildAttributes] *)
Definition buildAttributes (config : Config) (client : ClickHouseClient)
    (operation : string) (tableName : option string) (queryText : string)
    : gmap string attrValue :=
  let maxLen := default 2048 (maxQueryLength config) in
  let a0 : gmap string attrValue :=
    <[ATTR_DB_OPERATION := AStr operation]>
      (<[ATTR_DB_SYSTEM := AStr "clickhouse"]>
        (<[ATTR_DB_OPERATION_NAME := AStr operation]>
          (<[ATTR_DB_SYSTEM_NAME := AStr "clickhouse"]> ∅))) in
  let a1 :=
    match Analyzer.field tableName with
    | Some t => <[ATTR_DB_COLLECTION_NAME := AStr t]> a0
    | None => a0
    end in
  let a2 :=
    if (0 <? maxLen) && truthy queryText then
      let truncatedQuery :=
        if maxLen <? Z.of_nat (String.length queryText)
        then take (Z.to_nat maxLen) queryText +:+ "..."
        else queryText in
      <[ATTR_DB_STATEMENT := AStr truncatedQuery]>
        (<[ATTR_DB_QUERY_TEXT := AStr truncatedQuery]> a1)
    else a1 in
  match connectionParams client with
  | None => a2
  | Some cp =>
      let a3 :=
        match url cp with
        | Some u =>
            let a := <[ATTR_SERVER_ADDRESS := AStr (hostname u)]> a2 in
            if truthy (port u)
            then <[ATTR_SERVER_PORT := ANum (parseInt10 (port u))]> a
            else a
        | None => a2
        end in
      match Analyzer.field (database cp) with
      | Some d => <[ATTR_DB_NAME := AStr d]> (<[ATTR_DB_NAMESPACE := AStr d]> a3)
      | None => a3
      end
  end.

End Attributes.

(* ===================================================================== *)
(** * Span lifecycle                                                      *)
(* ===================================================================== *)

Module Lifecycle.
Import JsString Analyzer Attributes.

(** An [Error] object: its identity and its [message]. *)
Record Error := MkError { errorId : nat; message : string }.

(** A value produced by the wrapped client; opaque to the instrumentation. *)
Inductive Value := Handle (h : nat).

Inductive SpanKind := INTERNAL | SERVER | CLIENT | PRODUCER | CONSUMER.

(** [{ code, message }] as passed to [setStatus]. *)
Inductive SpanStatus := UNSET | OK | ERROR (msg : string).

Record Span := MkSpan {
  spanName : string;
  kind : SpanKind;
  attributes : gmap string attrValue;
  parent : option nat;
  status : SpanStatus;
  exceptions : list Error;
  ended : bool
}.

(** The ambient context: the active span, if any, and the flag that asks
    nested instrumentation not to trace. *)
Record Context := MkContext {
  activeSpan : option nat;
  tracingSuppressed : bool
}.

(** One invocation of an uninstrumented client method, as seen from the
    outside: the context it ran in, its receiver and its arguments. *)
Record Call := MkCall {
  callContext : Context;
  callThis : ClickHouseClient;
  callArgs : list (option Params)
}.

(** What a run can change: the spans held by the tracer (a span is
    designated by its index) and the log of calls that reached the client. *)
Record World := MkWorld {
  spans : list Span;
  calls : list Call
}.

Inductive completion (A : Type) :=
  | Normal (a : A)
  | Throw (e : Error).
Arguments Normal {A} a.
Arguments Throw {A} e.

(** Computations that read and change the world and may throw. *)
Definition M (A : Type) : Type := World -> completion A * World.

Definition ret {A} (a : A) : M A := fun w => (Normal a, w).
Definition throw {A} (e : Error) : M A := fun w => (Throw e, w).
Definition bind {A B} (c : M A) (k : A -> M B) : M B :=
  fun w =>
    match c w with
    | (Normal a, w') => k a w'
    | (Throw e, w') => (Throw e, w')
    end.

Notation "x <- c ;; k" := (bind c (fun x => k))
  (at level 100, c at next level, right associativity).
Notation "c ;;; k" := (bind c (fun _ => k))
  (at level 100, right associativity).

Inductive settlement :=
  | Fulfilled (v : Value)
  | Rejected (e : Error)
  | Pending.

(** A thenable, by what happens when the event loop settles it: the
    reactions attached to it run on the world of that moment. *)
Definition promise : Type := World -> settlement * World.

(** What a client method returns: a thenable or anything else. *)
Inductive jsResult :=
  | Plain (v : Value)
  | Promise (p : promise).

(** [p.then(onFulfilled, onRejected)], an operation of the runtime: the
    derived thenable settles as the callback that ran completes, fulfilled
    with what it returns, rejected with what it throws. *)
Definition then_ (p : promise) (onFulfilled : Value -> M Value)
    (onRejected : Error -> M Value) : promise :=
  fun w =>
    match p w with
    | (Fulfilled v, w1) =>
        match onFulfilled v w1 with
        | (Normal r, w2) => (Fulfilled r, w2)
        | (Throw e, w2) => (Rejected e, w2)
        end
    | (Rejected e, w1) =>
        match onRejected e w1 with
        | (Normal r, w2) => (Fulfilled r, w2)
        | (Throw e', w2) => (Rejected e', w2)
        end
    | (Pending, w1) => (Pending, w1)
    end.

(** The context operations of the tracing API: [trace.getSpan],
    [trace.setSpan], [suppressTracing] and [context.with].  The active
    context is passed explicitly, so running [fn] within [ctx] is applying
    it to [ctx]. *)
Definition getSpan (ctx : Context) : option nat := activeSpan ctx.

Definition setSpan (ctx : Context) (span : nat) : Context :=
  MkContext (Some span) (tracingSuppressed ctx).

Definition suppressTracing (ctx : Context) : Context :=
  MkContext (activeSpan ctx) true.

Definition contextWith {A} (ctx : Context) (fn : Context -> M A) : M A :=
  fn ctx.

(** The tracer and span operations of the tracing API.  [startSpan]
    records a new span whose parent is the span active in [ctx]; the three
    span operations change a span that has not ended. *)
Definition startSpan (ctx : Context) (name : string) (k : SpanKind)
    (attrs : gmap string attrValue) : M nat :=
  fun w =>
    (Normal (length (spans w)),
     MkWorld (spans w ++ [MkSpan name k attrs (activeSpan ctx) UNSET [] false])
             (calls w)).

Definition onSpan (span : nat) (f : Span -> Span) : M unit :=
  fun w =>
    (Normal tt,
     MkWorld (alter (fun sp => if ended sp then sp else f sp) span (spans w))
             (calls w)).

Definition recordException (span : nat) (e : Error) : M unit :=
  onSpan span (fun sp =>
    MkSpan (spanName sp) (kind sp) (attributes sp) (parent sp) (status sp)
           (exceptions sp ++ [e]) (ended sp)).

Definition setStatus (span : nat) (st : SpanStatus) : M unit :=
  onSpan span (fun sp =>
    MkSpan (spanName sp) (kind sp) (attributes sp) (parent sp) st
           (exceptions sp) (ended sp)).

Definition spanEnd (span : nat) : M unit :=
  onSpan span (fun sp =>
    MkSpan (spanName sp) (kind sp) (attributes sp) (parent sp) (status sp)
           (exceptions sp) true).

(** A callable client method: it runs in a context, on a receiver, with
    the argument list. *)
Definition Callee : Type :=
  Context -> ClickHouseClient -> list (option Params) -> M jsResult.

(** [#endSpan] *)
Definition endSpan (span : nat) (error : option Error) : M unit :=
  (match error with
   | Some e =>
       recordException span e ;;;
       setStatus span (ERROR (message e))
   | None => setStatus span OK
   end) ;;;
  spanEnd span.

(** [#callOriginalFunction]; [active] is [context.active()] at the call. *)
Definition callOriginalFunction (config : Config) (original : Callee)
    (active : Context) (thisArg : ClickHouseClient)
    (args : list (option Params)) : M jsResult :=
  if suppressInternalInstrumentation config then
    contextWith (suppressTracing active) (fun c => original c thisArg args)
  else original active thisArg args.

(** The first positional argument, [undefined] when there is none. *)
Definition firstArg (args : list (option Params)) : option Params :=
  match args with
  | a :: _ => a
  | [] => None
  end.

(** The span name computed by the wrapper. *)
Definition nameOfSpan (operation : string) (tableName : option string)
    : string :=
  match field tableName with
  | Some t => "clickhouse." +:+ operation +:+ " " +:+ t
  | None => "clickhouse." +:+ operation
  end.

(** The function installed by [#createWrapper (operation)] around
    [original], called in the ambient context [ambient] on the receiver
    [this] with the argument list [args]. *)
Definition wrapper (config : Config) (operation : string)
    (original : Callee) : Callee :=
  fun ambient this args =>
    let params := firstArg args in
    let parentSpan := getSpan ambient in
    if requireParentSpan config && negb (bool_decide (is_Some parentSpan))
    then original ambient this args
    else
      let tableName := extractTableName params operation in
      let queryText := extractQueryText params operation in
      let name := nameOfSpan operation tableName in
      let attrs := buildAttributes config this operation tableName queryText in
      span <- startSpan ambient name CLIENT attrs ;;
      let spanContext := setSpan ambient span in
      contextWith spanContext (fun active =>
        result <- callOriginalFunction config original active this args ;;
        match result with
        | Promise p =>
            ret (Promise (then_ p
                   (fun res => endSpan span None ;;; ret res)
                   (fun err => endSpan span (Some err) ;;; throw err)))
        | Plain _ =>
            endSpan span None ;;;
            ret result
        end).

End Lifecycle.

(* ===================================================================== *)
(** * Method interceptor                                                  *)
(* ===================================================================== *)

Module Interceptor.
Import JsString Analyzer Attributes Lifecycle.

(** A slot of the client prototype: the client's own function, or the
    function installed by the instrumentation for [operation], which
    remembers the function it replaced. *)
Inductive Method :=
  | Native (f : ClickHouseClient -> list (option Params) -> completion jsResult)
  | Wrapped (operation : string) (original : Method).

(** Calling a slot.  A native function completes as the client decides
    and the call is logged; a wrapped one runs the wrapper around the
    function it remembers. *)
Fixpoint invoke (config : Config) (m : Method) : Callee :=
  match m with
  | Native f =>
      fun ctx this args w =>
        (f this args, MkWorld (spans w) (calls w ++ [MkCall ctx this args]))
  | Wrapped operation original =>
      wrapper config operation (invoke config original)
  end.

(** The wrap and unwrap primitives of the host instrumentation framework
    and its test for an instrumented function.  [_wrap] replaces an
    existing property by the wrapper around it; [_unwrap] puts back what a
    wrapper remembers and changes nothing else. *)
Definition isWrapped (m : option Method) : bool :=
  match m with
  | Some (Wrapped _ _) => true
  | _ => false
  end.

Definition _unwrap (prototype : gmap string Method) (methodName : string)
    : gmap string Method :=
  match prototype !! methodName with
  | Some (Wrapped _ original) => <[methodName := original]> prototype
  | _ => prototype
  end.

Definition _wrap (prototype : gmap string Method) (methodName : string)
    (mk : Method -> Method) : gmap string Method :=
  match prototype !! methodName with
  | Some m => <[methodName := mk m]> prototype
  | None => prototype
  end.

(** [#wrapMethod] *)
Definition wrapMethod (prototype : gmap string Method)
    (methodName operation : string) : gmap string Method :=
  let prototype' :=
    if isWrapped (prototype !! methodName) then _unwrap prototype methodName
    else prototype in
  _wrap prototype' methodName (Wrapped operation).

(** The exports of the instrumented module: the prototype of its
    [ClickHouseClient] class, when it has one. *)
Record ModuleExports := MkExports {
  ClickHouseClientPrototype : option (gmap string Method)
}.

(** The two callbacks registered by [init]. *)
Definition patch (moduleExports : ModuleExports) : ModuleExports :=
  match ClickHouseClientPrototype moduleExports with
  | None => moduleExports
  | Some p =>
      MkExports (Some
        (wrapMethod (wrapMethod (wrapMethod (wrapMethod p
           "query" "query") "insert" "insert") "command" "command")
           "exec" "exec"))
  end.

Definition unpatch (moduleExports : ModuleExports) : ModuleExports :=
  match ClickHouseClientPrototype moduleExports with
  | None => moduleExports
  | Some p =>
      MkExports (Some
        (_unwrap (_unwrap (_unwrap (_unwrap p
           "query") "insert") "command") "exec"))
  end.

(** The number of wrappers stacked on a slot. *)
Fixpoint layers (m : Method) : nat :=
  match m with
  | Native _ => O
  | Wrapped _ original => S (layers original)
  end.

End Interceptor.

(* ===================================================================== *)
(** * The query analyzer as the specification words it                    *)
(* ===================================================================== *)

(** These definitions do not come from the source.  They restate, as
    direct left-to-right scanners, what section 4.4 of the specification
    says the analyzer computes; the theorems below compare them with the
    functions of [Analyzer]. *)
Module AnalyzerSpec.
Import JsString.

(** Collapse every run of white space to one space; [inRun] tells that
    the previous character was white space. *)
Fixpoint collapse (inRun : bool) (s : string) : string :=
  match s with
  | EmptyString => EmptyString
  | String c s' =>
      if isSpace c then
        if inRun then collapse true s' else String " " (collapse true s')
      else String c (collapse false s')
  end.

(** Normalize: collapse the runs, then trim. *)
Definition normalize (s : string) : string := trim (collapse false s).

(** Two characters that differ at most by case. *)
Definition sameLetter (a b : ascii) : bool :=
  code (upperChar a) =? code (upperChar b).

(** The keyword [w] at the start of [s], in any case; the text after it. *)
Fixpoint keyword (w s : string) : option string :=
  match w, s with
  | EmptyString, _ => Some s
  | String a w', String b s' =>
      if sameLetter b a then keyword w' s' else None
  | String _ _, EmptyString => None
  end.

(** One or more white-space characters; the text after them. *)
Definition spaces (s : string) : option string :=
  match s with
  | String c s' => if isSpace c then Some (dropWhile isSpace s') else None
  | EmptyString => None
  end.

Definition delimiterAt (s : string) : string :=
  match s with
  | String c _ => if isQuote c then String c EmptyString else EmptyString
  | EmptyString => EmptyString
  end.

(** An identifier at the start of [s]: a token of word characters and
    dots, optionally wrapped in delimiters.  The result is the token as
    written, delimiters included. *)
Definition identifier (s : string) : option string :=
  let opening := delimiterAt s in
  let body :=
    match s with
    | String c s' => if isQuote c then s' else s
    | EmptyString => s
    end in
  let token := takeWhile isIdentChar body in
  let closing := delimiterAt (dropWhile isIdentChar body) in
  if truthy token then Some (opening +:+ token +:+ closing) else None.

(** Delimiters are stripped from the result. *)
Fixpoint strip (t : string) : string :=
  match t with
  | EmptyString => EmptyString
  | String c t' => if isQuote c then strip t' else String c (strip t')
  end.

(** A phrase: the keywords in order, each followed by white space, then
    an identifier. *)
Fixpoint phrase (ws : list string) (s : string) : option string :=
  match ws with
  | [] => identifier s
  | w :: ws' =>
      match keyword w s with
      | Some s1 =>
          match spaces s1 with
          | Some s2 => phrase ws' s2
          | None => None
          end
      | None => None
      end
  end.

(** The first place, from the left, where the phrase stands at the start
    of a word ([p] is the character before [s]). *)
Fixpoint find (ws : list string) (p : option ascii) (s : string)
    : option string :=
  match (if isWordOpt p then None else phrase ws s) with
  | Some t => Some t
  | None =>
      match s with
      | EmptyString => None
      | String c s' => find ws (Some c) s'
      end
  end.

Definition orElse {A} (a b : option A) : option A :=
  match a with Some _ => a | None => b end.

(** Table name from query text: the four phrases in priority order, the
    last two only under their guard. *)
Definition parseTable (q : string) : option string :=
  let upper := toUpperCase (trim q) in
  strip <$>
    orElse (find ["FROM"] None q)
   (orElse (find ["INSERT"; "INTO"] None q)
   (orElse (if startsWith "UPDATE" upper then find ["UPDATE"] None q
            else None)
           (if startsWith "DELETE" upper then find ["DELETE"; "FROM"] None q
            else None))).

(** A table name: not empty, made of word characters and dots only. *)
Definition isTableName (t : string) : bool :=
  truthy t && allChars isIdentChar t.

(** The query text in the three cases of claim C10 as it is worded: no
    params, a table without a query, and otherwise the normalized params
    query ([None] where the params have no query to normalize). *)
Definition claimedQueryText (params : option Analyzer.Params)
    (operation : string) : option string :=
  match params with
  | None => Some operation
  | Some p =>
      match Analyzer.field (Analyzer.query p),
            Analyzer.field (Analyzer.table p) with
      | None, Some t => Some ("INSERT INTO " +:+ t)
      | _, _ => normalize <$> Analyzer.query p
      end
  end.

End AnalyzerSpec.

(* ===================================================================== *)
(** * Vocabulary of the statements                                        *)
(* ===================================================================== *)

Module Observe.
Import JsString Analyzer Attributes Lifecycle Interceptor.

Local Open Scope Z_scope.

(** The value both query-text attributes carry, when they are set. *)
Definition queryTextAttr (config : Config) (queryText : string)
    : option attrValue :=
  let m := default 2048 (maxQueryLength config) in
  if (0 <? m) && truthy queryText then
    Some (AStr (if Z.of_nat (String.length queryText) <=? m then queryText
                else take (Z.to_nat m) queryText +:+ "..."))
  else None.

(** The URL and the database a client exposes; a database is there when
    its name is not empty. *)
Definition connUrl (client : ClickHouseClient) : option URL :=
  match connectionParams client with
  | Some cp => url cp
  | None => None
  end.

Definition connDatabase (client : ClickHouseClient) : option string :=
  match connectionParams client with
  | Some cp => field (database cp)
  | None => None
  end.

(** The wrapper passes the call through: a parent span is required and
    none is active. *)
Definition gated (config : Config) (ambient : Context) : bool :=
  requireParentSpan config && negb (bool_decide (is_Some (getSpan ambient))).

(** The span a wrapper starts. *)
Definition freshSpan (config : Config) (operation : string)
    (ambient : Context) (this : ClickHouseClient)
    (args : list (option Params)) : Span :=
  let tableName := extractTableName (firstArg args) operation in
  MkSpan (nameOfSpan operation tableName) CLIENT
    (buildAttributes config this operation tableName
       (extractQueryText (firstArg args) operation))
    (activeSpan ambient) UNSET [] false.

(** The context in which the instrumented path calls the original. *)
Definition callContextOf (config : Config) (ambient : Context) (span : nat)
    : Context :=
  if suppressInternalInstrumentation config
  then suppressTracing (setSpan ambient span)
  else setSpan ambient span.

(** A span ended on an error, and a span ended on success. *)
Definition failSpan (e : Error) (sp : Span) : Span :=
  MkSpan (spanName sp) (kind sp) (attributes sp) (parent sp)
    (ERROR (message e)) (exceptions sp ++ [e]) true.

Definition okSpan (sp : Span) : Span :=
  MkSpan (spanName sp) (kind sp) (attributes sp) (parent sp)
    OK (exceptions sp) true.

(** [n] installs in a row on one method. *)
Definition installTimes (n : nat) (methodName operation : string)
    (prototype : gmap string Method) : gmap string Method :=
  Nat.iter n (fun p => wrapMethod p methodName operation) prototype.

Definition unwrapOnce (m : Method) : Method :=
  match m with
  | Wrapped _ original => original
  | Native _ => m
  end.

End Observe.

(* ===================================================================== *)
(** * Auxiliary definitions of the proofs                                 *)
(* ===================================================================== *)

Module Aux.
Import JsString Analyzer.

Definition allAscii : list ascii := map ascii_of_nat (seq 0 256).

(** A property of characters checked on all 256 of them. *)
Definition forallAscii (f : ascii -> bool) : bool := forallb f allAscii.

Definition isUpperLetter (c : ascii) : bool := between 65 90 c.

(** A keyword of the patterns: it starts with a capital letter. *)
Definition keywordOk (w : string) : bool :=
  match w with
  | String a _ => isUpperLetter a
  | EmptyString => false
  end.

(** Nodes that offer the matcher no choice. *)
Definition deterministic (n : node) : bool :=
  match n with
  | Opt _ | Plus _ => false
  | _ => true
  end.

Definition dropDelim (s : string) : string :=
  match s with
  | String c s' => if isQuote c then s' else s
  | EmptyString => s
  end.

(** The pattern of a phrase, after its leading [\b]. *)
Fixpoint phraseNodes (ws : list string) : list node :=
  match ws with
  | [] => identGroup
  | w :: ws' => lit w ++ Plus isSpace :: phraseNodes ws'
  end.

(** The length of the white-space run at the start of [s]. *)
Definition runLength (s : string) : nat :=
  (String.length s - String.length (dropWhile isSpace s))%nat.

End Aux.

(* ===================================================================== *)
(** * Sample data                                                         *)
(* ===================================================================== *)

Module Samples.
Import JsString Analyzer Attributes Lifecycle Interceptor.

Definition emptyWorld : World := MkWorld [] [].
Definition rootContext : Context := MkContext None false.
Definition sampleClient : ClickHouseClient :=
  MkClient (Some (MkConn (Some (MkURL "ch.local" "8443")) (Some "default"))).
Definition boom : Error := MkError 1 "boom".
Definition bigQuery : string := "SELECT * FROM big_table WHERE x=1".
Definition selectParams : Params := MkParams (Some bigQuery) None None.
Definition insertParams : Params := MkParams None None (Some "  events ").
Definition insertByQuery : Params :=
  MkParams (Some "INSERT INTO events VALUES (1)") None None.
Definition noFields : Params := MkParams None None None.
Definition emptyQuery : Params := MkParams (Some EmptyString) None None.
Definition requiringParent : Config := MkConfig (Some 2048%Z) true true.

(** Three client methods: one returns a value, one throws, one returns a
    thenable that rejects. *)
Definition returning : Method :=
  Native (fun _ _ => Normal (Plain (Handle 7))).
Definition throwing : Method := Native (fun _ _ => Throw boom).
Definition rejecting : Method :=
  Native (fun _ _ => Normal (Promise (fun w => (Rejected boom, w)))).

Definition samplePrototype : gmap string Method :=
  <["query" := returning]> (<["insert" := returning]> ∅).

End Samples.

Import JsString Analyzer Attributes Lifecycle Interceptor Observe Aux Samples.

(* ===================================================================== *)
(** * Further vocabulary: the rest of the class                           *)
(* ===================================================================== *)

Module Construction.
Import Attributes.

(** A property of the options object passed to the constructor: left
    out, or given (possibly as [undefined]). *)
Inductive supplied (A : Type) :=
  | Absent
  | Given (v : option A).
Arguments Absent {A}.
Arguments Given {A} v.

(** The options a user passes to [new ClickHouseInstrumentation(config)]. *)
Record UserConfig := MkUserConfig {
  userMaxQueryLength : supplied Z;
  userRequireParentSpan : supplied bool;
  userSuppressInternalInstrumentation : supplied bool
}.

(** One property of the object spread of [DEFAULT_CONFIG] followed by
    the user options: a property the user gives wins, also when its value
    is [undefined]. *)
Definition spread {A} (dflt : option A) (u : supplied A) : option A :=
  match u with
  | Absent => dflt
  | Given v => v
  end.

(** The constructor: the configuration [getConfig] returns afterwards.
    The two flags are kept by their truthiness. *)
Definition construct (config : UserConfig) : Config :=
  MkConfig
    (spread (maxQueryLength DEFAULT_CONFIG) (userMaxQueryLength config))
    (default false
       (spread (Some (requireParentSpan DEFAULT_CONFIG))
          (userRequireParentSpan config)))
    (default false
       (spread (Some (suppressInternalInstrumentation DEFAULT_CONFIG))
          (userSuppressInternalInstrumentation config))).

End Construction.

Module Shapes.
Import JsString Analyzer Attributes Lifecycle Interceptor.

(** Every white-space character of [s] is a single space that does not
    follow another one; [afterSpace] tells that the character before [s]
    is a space (or that [s] is the start of the text). *)
Fixpoint spaced (afterSpace : bool) (s : string) : bool :=
  match s with
  | EmptyString => true
  | String c s' =>
      if isSpace c
      then (code c =? 32) && negb afterSpace && spaced true s'
      else spaced false s'
  end.

Fixpoint lastIsSpace (s : string) : bool :=
  match s with
  | EmptyString => false
  | String c EmptyString => isSpace c
  | String _ s' => lastIsSpace s'
  end.

(** A normalized text: no white space at either end, and inside only
    single spaces. *)
Definition isNormalized (s : string) : bool :=
  spaced true s && negb (lastIsSpace s).

Definition notSpace (c : ascii) : bool := negb (isSpace c).

(** The attribute keys of the constants module, all of them. *)
Definition attrKeys : list string :=
  [ATTR_DB_SYSTEM_NAME; ATTR_DB_QUERY_TEXT; ATTR_DB_OPERATION_NAME;
   ATTR_DB_NAMESPACE; ATTR_DB_COLLECTION_NAME; ATTR_SERVER_ADDRESS;
   ATTR_SERVER_PORT; ATTR_DB_SYSTEM; ATTR_DB_STATEMENT; ATTR_DB_OPERATION;
   ATTR_DB_NAME].

(** The suffix the span name carries for the table. *)
Definition tableSuffix (a : option attrValue) : string :=
  match a with
  | Some (AStr t) => " " +:+ t
  | _ => EmptyString
  end.

(** The method names [init] instruments. *)
Definition instrumented : list string :=
  ["query"; "insert"; "command"; "exec"].

(** A position of a text: the character before it and the text from it
    on.  [Reach p s p' s'] holds when [(p', s')] is [(p, s)] or a later
    position of the same text. *)
Inductive Reach : option ascii -> string -> option ascii -> string -> Prop :=
  | ReachHere p s : Reach p s p s
  | ReachNext p c s p' s' : Reach (Some c) s p' s' -> Reach p (String c s) p' s'.

End Shapes.

Module MoreSamples.
Import JsString Analyzer Attributes Lifecycle Interceptor Samples.

Definition fulfilling : Method :=
  Native (fun _ _ => Normal (Promise (fun w => (Fulfilled (Handle 7), w)))).
Definition pending : Method :=
  Native (fun _ _ => Normal (Promise (fun w => (Pending, w)))).
Definition startedSpan : Span :=
  Observe.freshSpan DEFAULT_CONFIG "query" rootContext sampleClient
    [Some selectParams].
Definition loggedCall : Call :=
  MkCall (MkContext (Some 0%nat) true) sampleClient [Some selectParams].
Definition afterCall : World := MkWorld [startedSpan] [loggedCall].
Definition updateParams : Params :=
  MkParams (Some "UPDATE t SET x = 1") (Some "id-1") (Some "other").

End MoreSamples.

Import Construction Shapes MoreSamples.

(* ===================================================================== *)
(** * Characters and strings                                              *)
(* ===================================================================== *)

Section Characters.

Lemma forallAscii_spec f : forallAscii f = true -> forall c, f c = true.
Proof.
  intros H c. unfold forallAscii in H. rewrite forallb_forall in H.
  apply H. unfold allAscii. rewrite <- (ascii_nat_embedding c).
  apply in_map, in_seq. pose proof (nat_ascii_bounded c). lia.
Qed.

(** Under the [i] flag a capital letter is matched by a word character
    that is not white space. *)
Lemma letter_word a c :
  isUpperLetter a = true -> AnalyzerSpec.sameLetter c a = true ->
  isWordChar c = true /\ isSpace c = false.
Proof.
  assert (H : forallAscii (fun a => forallAscii (fun c =>
     implb (isUpperLetter a && AnalyzerSpec.sameLetter c a)
           (isWordChar c && negb (isSpace c)))) = true)
    by (vm_compute; reflexivity).
  intros Ha Hc.
  pose proof (forallAscii_spec _ (forallAscii_spec _ H a) c) as E.
  cbv beta in E. rewrite Ha, Hc in E. simpl in E.
  apply andb_true_iff in E as [E1 E2]. split; [exact E1|].
  now apply negb_true_iff.
Qed.

Lemma space_classes c :
  isSpace c = true -> isQuote c = false /\ isIdentChar c = false.
Proof.
  assert (H : forallAscii (fun c => implb (isSpace c)
     (negb (isQuote c) && negb (isIdentChar c))) = true)
    by (vm_compute; reflexivity).
  intros Hc. pose proof (forallAscii_spec _ H c) as E. cbv beta in E.
  rewrite Hc in E. simpl in E. apply andb_true_iff in E as [E1 E2].
  split; now apply negb_true_iff.
Qed.

Lemma quote_classes c : isQuote c = true -> isIdentChar c = false.
Proof.
  assert (H : forallAscii (fun c => implb (isQuote c) (negb (isIdentChar c)))
              = true) by (vm_compute; reflexivity).
  intros Hc. pose proof (forallAscii_spec _ H c) as E. cbv beta in E.
  rewrite Hc in E. simpl in E. now apply negb_true_iff.
Qed.

Lemma digit_classes c :
  isDigit c = true ->
  isSpace c = false /\ (code c =? 45) = false /\ (code c =? 43) = false.
Proof.
  assert (H : forallAscii (fun c => implb (isDigit c)
     (negb (isSpace c) && negb (code c =? 45) && negb (code c =? 43)))
     = true) by (vm_compute; reflexivity).
  intros Hc. pose proof (forallAscii_spec _ H c) as E. cbv beta in E.
  rewrite Hc in E. simpl in E.
  apply andb_true_iff in E as [E E3]. apply andb_true_iff in E as [E1 E2].
  repeat split; now apply negb_true_iff.
Qed.

End Characters.

Section Strings.

Lemma append_cons c (a b : string) : String c a +:+ b = String c (a +:+ b).
Proof. reflexivity. Qed.

Lemma append_nil_l (b : string) : EmptyString +:+ b = b.
Proof. reflexivity. Qed.

Lemma append_nil_r (a : string) : a +:+ EmptyString = a.
Proof. induction a as [|c a IH]; [reflexivity|]. now rewrite append_cons, IH. Qed.

Lemma append_assoc (a b c : string) : (a +:+ b) +:+ c = a +:+ (b +:+ c).
Proof.
  induction a as [|x a IH]; [reflexivity|].
  now rewrite !append_cons, IH.
Qed.

Lemma length_append (a b : string) :
  String.length (a +:+ b) = (String.length a + String.length b)%nat.
Proof.
  induction a as [|c a IH]; [reflexivity|].
  rewrite append_cons. simpl. now rewrite IH.
Qed.

Lemma take_append (a b : string) : take (String.length a) (a +:+ b) = a.
Proof.
  induction a as [|c a IH]; [now destruct b|].
  rewrite append_cons. simpl. now rewrite IH.
Qed.

Lemma consumed_append (a b : string) : consumed (a +:+ b) b = a.
Proof.
  unfold consumed. rewrite length_append.
  replace (String.length a + String.length b - String.length b)%nat
    with (String.length a) by lia.
  apply take_append.
Qed.

Lemma takeWhile_dropWhile p (s : string) :
  takeWhile p s +:+ dropWhile p s = s.
Proof.
  induction s as [|c s IH]; simpl; [reflexivity|].
  destruct (p c); [now rewrite append_cons, IH | reflexivity].
Qed.

Lemma allChars_takeWhile p (s : string) : allChars p (takeWhile p s) = true.
Proof.
  induction s as [|c s IH]; [reflexivity|]. cbn [takeWhile].
  destruct (p c) eqn:E; [|reflexivity]. cbn. now rewrite E.
Qed.

Lemma takeWhile_all p (s : string) :
  allChars p s = true -> takeWhile p s = s.
Proof.
  induction s as [|c s IH]; [reflexivity|]. cbn. intros H.
  apply andb_true_iff in H as [-> H]. now rewrite IH.
Qed.

Lemma dropWhile_length (s : string) :
  (String.length (dropWhile isSpace s) <= String.length s)%nat.
Proof.
  induction s as [|c s IH]; simpl; [lia|]. destruct (isSpace c); simpl; lia.
Qed.

Lemma delimiterAt_dropDelim (s : string) :
  AnalyzerSpec.delimiterAt s +:+ dropDelim s = s.
Proof.
  destruct s as [|c s]; simpl; [reflexivity|]. now destruct (isQuote c).
Qed.

Lemma consumed_token (s body : string) :
  s = AnalyzerSpec.delimiterAt s +:+ body ->
  consumed s (dropDelim (dropWhile isIdentChar body))
  = AnalyzerSpec.delimiterAt s +:+ takeWhile isIdentChar body
      +:+ AnalyzerSpec.delimiterAt (dropWhile isIdentChar body).
Proof.
  intros Hs.
  etransitivity;
    [|apply (consumed_append _ (dropDelim (dropWhile isIdentChar body)))].
  f_equal. rewrite !append_assoc, delimiterAt_dropDelim, takeWhile_dropWhile.
  exact Hs.
Qed.

End Strings.

(* ===================================================================== *)
(** * The matcher on the patterns of the source                           *)
(* ===================================================================== *)

Section GreedyLoop.

Variable cls : ascii -> bool.
Variable k : ascii -> string -> option mstate.

(** A greedy loop whose continuation rejects every text that still starts
    inside the class never backtracks. *)
Lemma plusLoop_run :
  (forall c c1 s1, cls c1 = true -> k c (String c1 s1) = None) ->
  forall s0 c0, cls c0 = true ->
  exists c', plusLoop cls k (String c0 s0) = k c' (dropWhile cls s0).
Proof.
  intros Hk. induction s0 as [|c1 s1 IH]; intros c0 Hc0.
  - exists c0. simpl. now rewrite Hc0.
  - cbn [plusLoop]. rewrite Hc0. cbn [dropWhile].
    destruct (cls c1) eqn:Hc1.
    + destruct (IH c1 Hc1) as [c' E]. cbn [plusLoop] in E. rewrite Hc1 in E.
      rewrite E. destruct (k c' (dropWhile cls s1)) eqn:Ek.
      * now exists c'.
      * exists c'. rewrite Ek. apply Hk. exact Hc1.
    + exists c0. reflexivity.
Qed.

(** A greedy loop whose continuation always succeeds stops at the end of
    the longest run. *)
Lemma plusLoop_longest :
  (forall c s, k c s <> None) ->
  forall s0 c0, cls c0 = true ->
  exists c', plusLoop cls k (String c0 s0) = k c' (dropWhile cls s0).
Proof.
  intros Hk. induction s0 as [|c1 s1 IH]; intros c0 Hc0.
  - exists c0. simpl. now rewrite Hc0.
  - cbn [plusLoop]. rewrite Hc0. cbn [dropWhile].
    destruct (cls c1) eqn:Hc1.
    + destruct (IH c1 Hc1) as [c' E]. cbn [plusLoop] in E. rewrite Hc1 in E.
      rewrite E. destruct (k c' (dropWhile cls s1)) eqn:Ek.
      * now exists c'.
      * now apply Hk in Ek.
    + exists c0. reflexivity.
Qed.

Lemma plusLoop_miss s :
  match s with String c _ => cls c = false | EmptyString => True end ->
  plusLoop cls k s = None.
Proof. destruct s as [|c s]; simpl; [reflexivity|]. now intros ->. Qed.

End GreedyLoop.

Section Matcher.

Lemma exec_plus cls r st :
  exec (Plus cls :: r) st
  = plusLoop cls (fun c s' => exec r (advance st c s')) (input st).
Proof. reflexivity. Qed.

Lemma exec_open r st :
  exec (Open :: r) st
  = exec r (MState (prev st) (input st) (Some (input st)) (group1 st)).
Proof. reflexivity. Qed.

Lemma exec_opt cls r st :
  exec (Opt cls :: r) st
  = match input st with
    | String c s' =>
        if cls c then
          match exec r (advance st c s') with
          | Some m => Some m
          | None => exec r st
          end
        else exec r st
    | EmptyString => exec r st
    end.
Proof. reflexivity. Qed.

(** A prefix without choice runs to its end before the rest starts. *)
Lemma exec_app_det d r : forallb deterministic d = true ->
  forall st, exec (d ++ r) st =
    match exec d st with Some st' => exec r st' | None => None end.
Proof.
  induction d as [|n d IH]; intros Hd st; simpl in *.
  - reflexivity.
  - apply andb_true_iff in Hd as [Hn Hd].
    destruct n; simpl in Hn; try discriminate.
    + destruct (xorb _ _); [now apply IH | reflexivity].
    + destruct (input st) as [|x s']; [reflexivity|].
      destruct (_ =? _); [now apply IH | reflexivity].
    + destruct (input st) as [|x s']; [reflexivity|].
      destruct (cls x); [now apply IH | reflexivity].
    + now apply IH.
    + now apply IH.
Qed.

Lemma lit_det w : forallb deterministic (lit w) = true.
Proof. induction w; simpl; auto. Qed.

(** A literal keyword consumes exactly what [AnalyzerSpec.keyword] does
    and leaves the capture untouched. *)
Lemma exec_lit w : forall st,
  match exec (lit w) st with
  | Some st' => AnalyzerSpec.keyword w (input st) = Some (input st')
                /\ gstart st' = gstart st /\ group1 st' = group1 st
  | None => AnalyzerSpec.keyword w (input st) = None
  end.
Proof.
  induction w as [|a w IH]; intros st; simpl.
  - auto.
  - destruct (input st) as [|c s'] eqn:E; [reflexivity|].
    unfold AnalyzerSpec.sameLetter, canonicalize.
    destruct (_ =? _); [|reflexivity].
    specialize (IH (advance st c s')). simpl in IH. exact IH.
Qed.

(** The end of the capture group: an optional closing delimiter, then the
    group is recorded. *)
Lemma exec_closing p s g g1 :
  exists p',
    exec [Opt isQuote; Close] (MState p s (Some g) g1)
    = Some (MState p' (dropDelim s) (Some g)
              (Some (consumed g (dropDelim s)))).
Proof.
  destruct s as [|c s']; simpl.
  - now exists p.
  - destruct (isQuote c); simpl; eexists; reflexivity.
Qed.

Lemma exec_token p s g g1 :
  group1 <$> exec [Plus isIdentChar; Opt isQuote; Close]
               (MState p s (Some g) g1)
  = if truthy (takeWhile isIdentChar s)
    then Some (Some (consumed g (dropDelim (dropWhile isIdentChar s))))
    else None.
Proof.
  destruct s as [|c s']; [reflexivity|].
  rewrite exec_plus. cbn [input takeWhile].
  destruct (isIdentChar c) eqn:Hc.
  - destruct (plusLoop_longest isIdentChar
      (fun c0 s0 => exec [Opt isQuote; Close]
         (advance (MState p (String c s') (Some g) g1) c0 s0)))
      with (s0 := s') (c0 := c) as [c' E]; [|exact Hc|].
    + intros c0 s0. unfold advance. cbn [gstart group1].
      destruct (exec_closing (Some c0) s0 g g1) as [p' ->]. discriminate.
    + rewrite E. unfold advance. cbn [gstart group1].
      destruct (exec_closing (Some c') (dropWhile isIdentChar s') g g1)
        as [p' ->].
      cbn. now rewrite Hc.
  - cbn [plusLoop]. now rewrite Hc.
Qed.

(** The capture group matches an identifier and captures it as written. *)
Lemma exec_identGroup st :
  group1 <$> exec identGroup st = Some <$> AnalyzerSpec.identifier (input st).
Proof.
  unfold identGroup. rewrite exec_open, exec_opt.
  destruct st as [p s g0 g1]. cbn [prev input group1]. unfold advance.
  cbn [gstart group1]. unfold AnalyzerSpec.identifier.
  destruct s as [|c s'].
  - rewrite exec_token. reflexivity.
  - destruct (isQuote c) eqn:Hq.
    + pose proof (exec_token (Some c) s' (String c s') g1) as Ht.
      destruct (exec [Plus isIdentChar; Opt isQuote; Close]
                  (MState (Some c) s' (Some (String c s')) g1))
        as [m|] eqn:Em.
      * rewrite Ht.
        destruct (truthy (takeWhile isIdentChar s')); [|reflexivity].
        cbn [fmap option_fmap option_map]. do 2 f_equal.
        apply consumed_token. cbn [AnalyzerSpec.delimiterAt]. now rewrite Hq.
      * rewrite exec_token. cbn [takeWhile]. rewrite (quote_classes c Hq).
        cbn [truthy]. now destruct (truthy (takeWhile isIdentChar s')).
    + rewrite exec_token.
      destruct (truthy (takeWhile isIdentChar (String c s'))); [|reflexivity].
      cbn [fmap option_fmap option_map]. do 2 f_equal.
      apply consumed_token. cbn [AnalyzerSpec.delimiterAt]. now rewrite Hq.
Qed.

End Matcher.

(* ===================================================================== *)
(** * Query analyzer: the source against the specification                *)
(* ===================================================================== *)

Section AnalyzerRefinement.

Lemma fmap_none_inv {A B} (f : A -> option B) (x : option A) (y : option B) :
  f <$> x = Some <$> y -> y = None -> x = None.
Proof. intros H ->. now destruct x. Qed.

Lemma phrase_leading_space ws c1 s1 :
  forallb keywordOk ws = true -> isSpace c1 = true ->
  AnalyzerSpec.phrase ws (String c1 s1) = None.
Proof.
  intros Hws Hc. destruct ws as [|w ws]; cbn [AnalyzerSpec.phrase].
  - unfold AnalyzerSpec.identifier. destruct (space_classes c1 Hc) as [Hq Hi].
    cbn [AnalyzerSpec.delimiterAt]. rewrite Hq. cbn [takeWhile].
    now rewrite Hi.
  - cbn [forallb] in Hws. apply andb_true_iff in Hws as [Hw _].
    destruct w as [|a w]; [discriminate|]. cbn [keywordOk] in Hw.
    cbn [AnalyzerSpec.keyword].
    destruct (AnalyzerSpec.sameLetter c1 a) eqn:E; [|reflexivity].
    destruct (letter_word a c1 Hw E) as [_ Hn]. congruence.
Qed.

Lemma phrase_head w ws s t :
  keywordOk w = true -> AnalyzerSpec.phrase (w :: ws) s = Some t ->
  isWordOpt (headOf s) = true.
Proof.
  intros Hw. destruct w as [|a w]; [discriminate|]. cbn [keywordOk] in Hw.
  cbn [AnalyzerSpec.phrase AnalyzerSpec.keyword].
  destruct s as [|c s]; [discriminate|].
  destruct (AnalyzerSpec.sameLetter c a) eqn:E; [|discriminate].
  intros _. now destruct (letter_word a c Hw E).
Qed.

(** The pattern of a phrase captures what the scanner of the
    specification reads, by induction on the keywords. *)
Lemma exec_phrase ws : forallb keywordOk ws = true -> forall st,
  group1 <$> exec (phraseNodes ws) st
  = Some <$> AnalyzerSpec.phrase ws (input st).
Proof.
  induction ws as [|w ws IH]; intros Hws st.
  - apply exec_identGroup.
  - cbn [forallb] in Hws. apply andb_true_iff in Hws as [Hw Hws].
    specialize (IH Hws).
    cbn [phraseNodes AnalyzerSpec.phrase].
    rewrite (exec_app_det _ _ (lit_det w)).
    pose proof (exec_lit w st) as Hl.
    destruct (exec (lit w) st) as [st1|].
    2:{ now rewrite Hl. }
    destruct Hl as (-> & _ & _).
    rewrite exec_plus. unfold AnalyzerSpec.spaces.
    destruct (input st1) as [|c0 s0]; [reflexivity|].
    destruct (isSpace c0) eqn:Hc0.
    + destruct (plusLoop_run isSpace
        (fun c s' => exec (phraseNodes ws) (advance st1 c s')))
        with (s0 := s0) (c0 := c0) as [c' E]; [|exact Hc0|].
      * intros c c1 s1 Hc1.
        eapply fmap_none_inv; [apply IH|].
        now apply phrase_leading_space.
      * rewrite E. apply IH.
    + rewrite plusLoop_miss; [reflexivity | exact Hc0].
Qed.

(** The leftmost match of the pattern is the first occurrence the scanner
    finds, by induction on the text. *)
Lemma search_find w ws : forallb keywordOk (w :: ws) = true -> forall s p,
  group1 <$> search (Boundary :: phraseNodes (w :: ws)) p s
  = Some <$> AnalyzerSpec.find (w :: ws) p s.
Proof.
  intros Hws.
  assert (Hstep : forall s p,
    group1 <$> exec (Boundary :: phraseNodes (w :: ws)) (start p s)
    = Some <$> (if isWordOpt p then None
                else AnalyzerSpec.phrase (w :: ws) s)).
  { intros s p.
    change (exec (Boundary :: phraseNodes (w :: ws)) (start p s))
      with (if xorb (isWordOpt p) (isWordOpt (headOf s))
            then exec (phraseNodes (w :: ws)) (start p s) else None).
    pose proof (exec_phrase (w :: ws) Hws (start p s)) as E.
    change (input (start p s)) with s in E.
    destruct (AnalyzerSpec.phrase (w :: ws) s) as [t|] eqn:Ep.
    - cbn [forallb] in Hws. apply andb_true_iff in Hws as [Hw _].
      rewrite (phrase_head w ws s t Hw Ep).
      destruct (isWordOpt p); [reflexivity | exact E].
    - rewrite (fmap_none_inv _ _ _ E eq_refl).
      now destruct (xorb _ _), (isWordOpt p). }
  induction s as [|c s IH]; intros p.
  - cbn [search AnalyzerSpec.find]. specialize (Hstep EmptyString p).
    destruct (exec _ _); destruct (if isWordOpt p then _ else _);
      try discriminate; auto.
  - cbn [search AnalyzerSpec.find]. specialize (Hstep (String c s) p).
    destruct (exec _ _); destruct (if isWordOpt p then _ else _);
      try discriminate; auto.
Qed.

Lemma jsMatch_find w ws q : forallb keywordOk (w :: ws) = true ->
  jsMatch (Boundary :: phraseNodes (w :: ws)) q
  = Some <$> AnalyzerSpec.find (w :: ws) None q.
Proof.
  intros H. rewrite <- (search_find w ws H). unfold jsMatch.
  now destruct (search _ _ _).
Qed.

(** In a match of one of the four patterns the group is always set. *)
Lemma jsMatch_group_set w ws q g : forallb keywordOk (w :: ws) = true ->
  jsMatch (Boundary :: phraseNodes (w :: ws)) q = Some g -> g <> None.
Proof.
  intros H. rewrite (jsMatch_find w ws q H).
  destruct (AnalyzerSpec.find (w :: ws) None q); cbn; congruence.
Qed.

Lemma replace_quote (g : string) : forall p,
  replaceFrom reQuote EmptyString p O g = AnalyzerSpec.strip g.
Proof.
  induction g as [|c g IH]; intros p; [reflexivity|].
  cbn [replaceFrom AnalyzerSpec.strip]. unfold reQuote, start.
  cbn [exec input]. destruct (isQuote c).
  - unfold advance. cbn [input].
    replace (String.length (String c g) - String.length g)%nat with 1%nat
      by (simpl; lia).
    rewrite IH. reflexivity.
  - now rewrite IH.
Qed.

Lemma stripDelims_strip (t : string) :
  stripDelims (Some t) = AnalyzerSpec.strip t.
Proof. apply replace_quote. Qed.

Lemma exec_spaces p c s :
  isSpace c = true ->
  input <$> exec reSpaces (start p (String c s)) = Some (dropWhile isSpace s).
Proof.
  intros Hc. unfold reSpaces. rewrite exec_plus.
  destruct (plusLoop_longest isSpace
    (fun c0 s' => exec [] (advance (start p (String c s)) c0 s')))
    with (s0 := s) (c0 := c) as [c' E]; [discriminate | exact Hc |].
  cbn [input start]. rewrite E. reflexivity.
Qed.

(** Global replacement of white-space runs, with and without characters
    of the current run still to drop. *)
Lemma replace_spaces (s : string) : forall p,
  replaceFrom reSpaces " " p O s = AnalyzerSpec.collapse false s
  /\ replaceFrom reSpaces " " p (runLength s) s
     = AnalyzerSpec.collapse true s.
Proof.
  induction s as [|c s IH]; intros p; [split; reflexivity|].
  assert (H0 : replaceFrom reSpaces " " p O (String c s)
               = AnalyzerSpec.collapse false (String c s)).
  { cbn [replaceFrom AnalyzerSpec.collapse].
    destruct (isSpace c) eqn:Hc.
    - pose proof (exec_spaces p c s Hc) as E.
      destruct (exec reSpaces (start p (String c s))) as [m|];
        [|discriminate].
      cbn in E. injection E as ->.
      pose proof (dropWhile_length s).
      replace (String.length (String c s)
               - String.length (dropWhile isSpace s))%nat
        with (S (runLength s)) by (unfold runLength; simpl; lia).
      destruct (IH (Some c)) as [_ ->]. reflexivity.
    - unfold reSpaces. rewrite exec_plus, plusLoop_miss by exact Hc.
      cbv beta iota. destruct (IH (Some c)) as [E _].
      unfold reSpaces in E. now rewrite E. }
  split; [exact H0|].
  destruct (isSpace c) eqn:Hc.
  - pose proof (dropWhile_length s).
    replace (runLength (String c s)) with (S (runLength s))
      by (unfold runLength; simpl; rewrite Hc; lia).
    cbn [replaceFrom AnalyzerSpec.collapse]. rewrite Hc.
    now destruct (IH (Some c)) as [_ ->].
  - replace (runLength (String c s)) with O
      by (unfold runLength; simpl; rewrite Hc; simpl; lia).
    rewrite H0. cbn [AnalyzerSpec.collapse]. now rewrite Hc.
Qed.

Lemma normalizeQuery_normalize (q : string) :
  normalizeQuery q = AnalyzerSpec.normalize q.
Proof.
  unfold normalizeQuery, AnalyzerSpec.normalize, replaceAll.
  now destruct (replace_spaces q None) as [-> _].
Qed.

Lemma parseTableFromQuery_refines (q : string) :
  parseTableFromQuery q = AnalyzerSpec.parseTable q.
Proof.
  unfold parseTableFromQuery, AnalyzerSpec.parseTable.
  destruct q as [|c q]; [reflexivity|]. cbn [truthy negb].
  change reFrom with (Boundary :: phraseNodes ["FROM"]).
  change reInsertInto with (Boundary :: phraseNodes ["INSERT"; "INTO"]).
  change reUpdate with (Boundary :: phraseNodes ["UPDATE"]).
  change reDeleteFrom with (Boundary :: phraseNodes ["DELETE"; "FROM"]).
  rewrite !jsMatch_find by reflexivity.
  destruct (AnalyzerSpec.find ["FROM"] None (String c q)) as [t|];
    [cbn -[stripDelims AnalyzerSpec.strip]; now rewrite stripDelims_strip|].
  destruct (AnalyzerSpec.find ["INSERT"; "INTO"] None (String c q)) as [t|];
    [cbn -[stripDelims AnalyzerSpec.strip]; now rewrite stripDelims_strip|].
  destruct (startsWith "UPDATE" _).
  - destruct (AnalyzerSpec.find ["UPDATE"] None (String c q)) as [t|];
      [cbn -[stripDelims AnalyzerSpec.strip]; now rewrite stripDelims_strip|].
    destruct (startsWith "DELETE" _); [|reflexivity].
    destruct (AnalyzerSpec.find ["DELETE"; "FROM"] None (String c q)) as [t|];
      [cbn -[stripDelims AnalyzerSpec.strip]; now rewrite stripDelims_strip
      | reflexivity].
  - destruct (startsWith "DELETE" _); [|reflexivity].
    destruct (AnalyzerSpec.find ["DELETE"; "FROM"] None (String c q)) as [t|];
      [cbn -[stripDelims AnalyzerSpec.strip]; now rewrite stripDelims_strip
      | reflexivity].
Qed.

End AnalyzerRefinement.

Section TableNames.

Lemma strip_app (a b : string) :
  AnalyzerSpec.strip (a +:+ b) = AnalyzerSpec.strip a +:+ AnalyzerSpec.strip b.
Proof.
  induction a as [|c a IH]; [reflexivity|].
  rewrite append_cons. cbn [AnalyzerSpec.strip].
  destruct (isQuote c); [exact IH | now rewrite append_cons, IH].
Qed.

Lemma strip_delimiterAt (s : string) :
  AnalyzerSpec.strip (AnalyzerSpec.delimiterAt s) = EmptyString.
Proof.
  destruct s as [|c s]; [reflexivity|]. cbn [AnalyzerSpec.delimiterAt].
  destruct (isQuote c) eqn:E; cbn; [now rewrite E | reflexivity].
Qed.

Lemma strip_token (s : string) :
  AnalyzerSpec.strip (takeWhile isIdentChar s) = takeWhile isIdentChar s.
Proof.
  induction s as [|c s IH]; [reflexivity|]. cbn [takeWhile].
  destruct (isIdentChar c) eqn:E; [|reflexivity].
  cbn [AnalyzerSpec.strip]. destruct (isQuote c) eqn:Q.
  - rewrite (quote_classes c Q) in E. discriminate.
  - now rewrite IH.
Qed.

(** Stripping the delimiters of an identifier leaves its token. *)
Lemma identifier_strip s t :
  AnalyzerSpec.identifier s = Some t ->
  AnalyzerSpec.isTableName (AnalyzerSpec.strip t) = true.
Proof.
  unfold AnalyzerSpec.identifier.
  set (body := match s with
               | String c s' => if isQuote c then s' else s
               | EmptyString => s
               end).
  destruct (truthy (takeWhile isIdentChar body)) eqn:E; [|discriminate].
  intros [= <-].
  rewrite !strip_app, !strip_delimiterAt, strip_token, append_nil_l,
    append_nil_r.
  unfold AnalyzerSpec.isTableName. now rewrite E, allChars_takeWhile.
Qed.

Lemma phrase_identifier ws : forall s t,
  AnalyzerSpec.phrase ws s = Some t ->
  exists s', AnalyzerSpec.identifier s' = Some t.
Proof.
  induction ws as [|w ws IH]; intros s t; cbn [AnalyzerSpec.phrase].
  - eauto.
  - destruct (AnalyzerSpec.keyword w s) as [s1|]; [|discriminate].
    destruct (AnalyzerSpec.spaces s1) as [s2|]; [|discriminate]. apply IH.
Qed.

Lemma find_identifier ws s : forall p t,
  AnalyzerSpec.find ws p s = Some t ->
  exists s', AnalyzerSpec.identifier s' = Some t.
Proof.
  induction s as [|c s IH]; intros p t; cbn [AnalyzerSpec.find];
    destruct (isWordOpt p);
    try destruct (AnalyzerSpec.phrase ws _) as [t'|] eqn:E;
    try discriminate; try (intros [= <-]; eapply phrase_identifier; eauto);
    try apply IH.
Qed.

Lemma parseTable_shape q :
  from_option AnalyzerSpec.isTableName true (AnalyzerSpec.parseTable q) = true.
Proof.
  unfold AnalyzerSpec.parseTable.
  set (o := AnalyzerSpec.orElse _ _).
  assert (H : forall t, o = Some t ->
                exists s', AnalyzerSpec.identifier s' = Some t).
  { subst o. intros t. unfold AnalyzerSpec.orElse.
    repeat match goal with
    | |- context [AnalyzerSpec.find ?ws None q] =>
        let E := fresh "E" in
        destruct (AnalyzerSpec.find ws None q) eqn:E
    | |- context [startsWith ?a ?b] => destruct (startsWith a b)
    end;
    try discriminate; intros [= <-]; eapply find_identifier; eauto. }
  destruct o as [t|]; [|reflexivity]. cbn.
  destruct (H t eq_refl) as [s' Hs]. now apply (identifier_strip s').
Qed.

(** For an operation other than [insert] the table name comes from the
    query text alone. *)
Lemma extractTableName_other p operation :
  String.eqb operation "insert" = false ->
  extractTableName (Some p) operation
  = match field (query p) with
    | Some q => parseTableFromQuery q
    | None => None
    end.
Proof. intros H. unfold extractTableName. now rewrite H. Qed.

(** Without a non-empty [table], an [insert] is resolved from the query
    text like the other operations. *)
Lemma extractTableName_insert_fallback p :
  field (table p) = None ->
  extractTableName (Some p) "insert"
  = match field (query p) with
    | Some q => parseTableFromQuery q
    | None => None
    end.
Proof.
  intros H. unfold extractTableName. cbn [String.eqb Ascii.eqb Bool.eqb].
  now rewrite H.
Qed.

(** C4: for every query text, [#parseTableFromQuery] returns what the
    scanner of the specification returns: the first match, without regard
    to case, of FROM identifier, then INSERT INTO identifier, then (only
    when the trimmed upper-cased text starts with UPDATE) UPDATE
    identifier, then (only when it starts with DELETE) DELETE FROM
    identifier, with the delimiters of the identifier stripped, and no
    table name when nothing matches.  A table name that is returned is a
    non-empty token of word characters and dots. *)
Theorem C4_table_from_query (q : string) :
  parseTableFromQuery q = AnalyzerSpec.parseTable q
  /\ from_option AnalyzerSpec.isTableName true (parseTableFromQuery q) = true.
Proof.
  split; [apply parseTableFromQuery_refines|].
  rewrite parseTableFromQuery_refines. apply parseTable_shape.
Qed.

End TableNames.

(* ===================================================================== *)
(** * Attribute builder                                                   *)
(* ===================================================================== *)

Ltac attr_keys :=
  unfold ATTR_DB_SYSTEM_NAME, ATTR_DB_QUERY_TEXT, ATTR_DB_OPERATION_NAME,
    ATTR_DB_NAMESPACE, ATTR_DB_COLLECTION_NAME, ATTR_SERVER_ADDRESS,
    ATTR_SERVER_PORT, ATTR_DB_SYSTEM, ATTR_DB_STATEMENT, ATTR_DB_OPERATION,
    ATTR_DB_NAME in *.

(** Read a key of a map built by a chain of writes to literal keys. *)
Ltac attr_lookup :=
  attr_keys;
  repeat first
    [ rewrite lookup_insert_eq
    | rewrite lookup_insert_ne by discriminate
    | rewrite lookup_empty ].

Section AttributeResults.

Local Open Scope Z_scope.

Lemma queryText_lookups config client operation tableName queryText :
  let attrs := buildAttributes config client operation tableName queryText in
  attrs !! ATTR_DB_QUERY_TEXT = queryTextAttr config queryText
  /\ attrs !! ATTR_DB_STATEMENT = queryTextAttr config queryText.
Proof.
  unfold buildAttributes, queryTextAttr.
  set (m := default 2048 (maxQueryLength config)).
  replace (Z.of_nat (String.length queryText) <=? m)
    with (negb (m <? Z.of_nat (String.length queryText)))
    by (destruct (Z.ltb_spec m (Z.of_nat (String.length queryText)));
        destruct (Z.leb_spec (Z.of_nat (String.length queryText)) m);
        simpl; try reflexivity; lia).
  destruct (connectionParams client) as [[[u|] d]|]; cbn [url database];
    try destruct (truthy (port u));
    try destruct (field d);
    destruct (field tableName);
    destruct ((0 <? m) && truthy queryText);
    destruct (m <? Z.of_nat (String.length queryText));
    cbn [negb]; split; attr_lookup; reflexivity.
Qed.

(** C5: in every attribute build, [db.query.text] and [db.statement] are
    set exactly when the effective [maxQueryLength] is positive and the
    query text is not empty; their value is the query text itself when it
    is at most [maxQueryLength] long and otherwise its first
    [maxQueryLength] characters followed by three dots; with
    [maxQueryLength] 0 neither attribute is set, whatever the query. *)
Theorem C5_query_text_attributes
    config client operation tableName queryText :
  let attrs := buildAttributes config client operation tableName queryText in
  let off := MkConfig (Some 0) (requireParentSpan config)
               (suppressInternalInstrumentation config) in
  let attrs0 := buildAttributes off client operation tableName queryText in
  attrs !! ATTR_DB_QUERY_TEXT = queryTextAttr config queryText
  /\ attrs !! ATTR_DB_STATEMENT = queryTextAttr config queryText
  /\ attrs0 !! ATTR_DB_QUERY_TEXT = None
  /\ attrs0 !! ATTR_DB_STATEMENT = None.
Proof.
  cbv zeta.
  destruct (queryText_lookups config client operation tableName queryText)
    as [H1 H2].
  destruct (queryText_lookups
              (MkConfig (Some 0) (requireParentSpan config)
                 (suppressInternalInstrumentation config))
              client operation tableName queryText) as [H3 H4].
  repeat split; assumption.
Qed.

(** C8: in every attribute build, [server.address] is the host name of
    the URL whenever the client exposes one; [server.port] is set, to the
    integer read from the port of the URL, exactly when that port is not
    empty; [db.namespace] and [db.name] are set, to the database name,
    exactly when the client exposes a database (a name that is not
    empty); without connection parameters none of them is set. *)
Theorem C8_connection_attributes
    config client operation tableName queryText :
  let attrs := buildAttributes config client operation tableName queryText in
  attrs !! ATTR_SERVER_ADDRESS
    = match connUrl client with
      | Some u => Some (AStr (hostname u))
      | None => None
      end
  /\ attrs !! ATTR_SERVER_PORT
    = match connUrl client with
      | Some u =>
          if truthy (port u) then Some (ANum (parseInt10 (port u))) else None
      | None => None
      end
  /\ attrs !! ATTR_DB_NAMESPACE = AStr <$> connDatabase client
  /\ attrs !! ATTR_DB_NAME = AStr <$> connDatabase client.
Proof.
  unfold buildAttributes, connUrl, connDatabase.
  destruct (connectionParams client) as [[[u|] d]|]; cbn [url database];
    try destruct (truthy (port u));
    try destruct (field d);
    destruct (field tableName);
    destruct ((0 <? default 2048 (maxQueryLength config)) && truthy queryText);
    cbn [fmap option_fmap option_map];
    repeat split; attr_lookup; reflexivity.
Qed.

(** On a port made of digits, [parseInt10] is the decimal value. *)
Lemma parseInt10_digits (s : string) :
  truthy s = true -> allChars isDigit s = true ->
  parseInt10 s = Num (digitsValue 0 s).
Proof.
  intros Hs Hd. unfold parseInt10.
  destruct s as [|c s]; [discriminate|].
  pose proof Hd as Hall.
  cbn [allChars] in Hd. apply andb_true_iff in Hd as [Hc Hd].
  destruct (digit_classes c Hc) as (H1 & H2 & H3).
  cbn [dropWhile]. rewrite H1, H2, H3.
  rewrite (takeWhile_all _ _ Hall). reflexivity.
Qed.

(** C2 (amended): for every [insert] call whose params carry a non-empty
    [table], the resolved table name is that field trimmed, and the span
    name and the [db.collection.name] attribute follow from it alone; the
    query text plays no part.  For every [insert] call whose params carry
    no non-empty [table], the table name is the one parsed from the
    params' query text (none without a non-empty query), as for the other
    operations. *)
Theorem C2_insert_table_from_params config client p queryText :
  let tableName := extractTableName (Some p) "insert" in
  match field (table p) with
  | Some t =>
      tableName = Some (trim t)
      /\ nameOfSpan "insert" tableName
         = (if truthy (trim t) then "clickhouse.insert " +:+ trim t
            else "clickhouse.insert")
      /\ buildAttributes config client "insert" tableName queryText
           !! ATTR_DB_COLLECTION_NAME
         = (if truthy (trim t) then Some (AStr (trim t)) else None)
  | None =>
      tableName
      = match field (query p) with
        | Some q => parseTableFromQuery q
        | None => None
        end
      /\ tableName = extractTableName (Some p) "query"
      /\ nameOfSpan "insert" tableName
         = nameOfSpan "insert" (extractTableName (Some p) "query")
      /\ buildAttributes config client "insert" tableName queryText
           !! ATTR_DB_COLLECTION_NAME
         = AStr <$> field tableName
  end.
Proof.
  cbv zeta. destruct (field (table p)) as [t|] eqn:Ht.
  - assert (E : extractTableName (Some p) "insert" = Some (trim t))
      by (unfold extractTableName; cbn [String.eqb Ascii.eqb Bool.eqb];
          now rewrite Ht).
    rewrite E. split; [reflexivity|]. split.
    + unfold nameOfSpan, field. now destruct (truthy (trim t)).
    + unfold buildAttributes.
      destruct (connectionParams client) as [[[u|] d]|]; cbn [url database];
        try destruct (truthy (port u));
        try destruct (field d);
        destruct ((0 <? default 2048 (maxQueryLength config))
                  && truthy queryText);
        unfold field; destruct (truthy (trim t));
        attr_lookup; reflexivity.
  - rewrite (extractTableName_insert_fallback p Ht).
    rewrite (extractTableName_other p "query" eq_refl).
    repeat split.
    set (tn := match field (query p) with
               | Some q => parseTableFromQuery q
               | None => None
               end).
    unfold buildAttributes.
    destruct (connectionParams client) as [[[u|] d]|]; cbn [url database];
      try destruct (truthy (port u));
      try destruct (field d);
      destruct (field tn);
      destruct ((0 <? default 2048 (maxQueryLength config))
                && truthy queryText);
      cbn [fmap option_fmap option_map];
      attr_lookup; reflexivity.
Qed.

(** C2 as stated fails: an [insert] call without a [table] gets its table
    name from the query text. *)
Lemma C2_counterexample :
  table insertByQuery = None
  /\ extractTableName (Some insertByQuery) "insert" = Some "events"
  /\ extractTableName (Some insertByQuery) "insert"
     <> (trim <$> table insertByQuery).
Proof. vm_compute. repeat split. discriminate. Qed.

(** C10 (amended): the query text is the operation name when there are
    no params; the white-space-normalized query when the params carry a
    non-empty query; INSERT INTO followed by the table when they carry a
    non-empty table and no query; and the operation name when they carry
    neither.  So [db.query.text] can be set although the caller gave no
    query. *)
Theorem C10_query_text_synthesis params operation :
  extractQueryText params operation
  = match params with
    | None => operation
    | Some p =>
        match field (query p), field (table p) with
        | Some q, _ => AnalyzerSpec.normalize q
        | None, Some t => "INSERT INTO " +:+ t
        | None, None => operation
        end
    end
  /\ (forall client tableName,
        buildAttributes DEFAULT_CONFIG client "query" tableName
          (extractQueryText None "query") !! ATTR_DB_QUERY_TEXT
        = Some (AStr "query")).
Proof.
  split.
  - unfold extractQueryText. destruct params as [p|]; [|reflexivity].
    destruct (field (query p)); [apply normalizeQuery_normalize|].
    now destruct (field (table p)).
  - intros client tableName.
    destruct (queryText_lookups DEFAULT_CONFIG client "query" tableName
                (extractQueryText None "query")) as [-> _].
    reflexivity.
Qed.

(** C10 as stated fails: params with neither query nor table, or with an
    empty query, give the operation name, not a normalized query. *)
Lemma C10_counterexample :
  extractQueryText (Some noFields) "command" = "command"
  /\ AnalyzerSpec.claimedQueryText (Some noFields) "command" = None
  /\ extractQueryText (Some emptyQuery) "command" = "command"
  /\ AnalyzerSpec.claimedQueryText (Some emptyQuery) "command"
     = Some EmptyString
  /\ AnalyzerSpec.claimedQueryText (Some emptyQuery) "command"
     <> Some (extractQueryText (Some emptyQuery) "command").
Proof. vm_compute. repeat split. discriminate. Qed.

End AttributeResults.

(* ===================================================================== *)
(** * Span lifecycle                                                      *)
(* ===================================================================== *)

Section LifecycleResults.

Lemma callOriginalFunction_eq config original active this args :
  callOriginalFunction config original active this args
  = original (if suppressInternalInstrumentation config
              then suppressTracing active else active) this args.
Proof.
  unfold callOriginalFunction, contextWith.
  now destruct (suppressInternalInstrumentation config).
Qed.

(** The pass-through path. *)
Lemma wrapper_gated config operation original ambient this args :
  gated config ambient = true ->
  wrapper config operation original ambient this args
  = original ambient this args.
Proof.
  intros Hg. unfold wrapper. fold (gated config ambient). now rewrite Hg.
Qed.

(** The instrumented path: the span is started, the original runs, and
    what follows depends on how it completes. *)
Lemma wrapper_instrumented config operation original ambient this args w :
  gated config ambient = false ->
  wrapper config operation original ambient this args w
  = let span := length (spans w) in
    let w1 :=
      MkWorld (spans w ++ [freshSpan config operation ambient this args])
              (calls w) in
    match original (callContextOf config ambient span) this args w1 with
    | (Normal (Promise p), w2) =>
        (Normal (Promise (then_ p
           (fun res => bind (endSpan span None) (fun _ => ret res))
           (fun err => bind (endSpan span (Some err)) (fun _ => throw err)))),
         w2)
    | (Normal (Plain v), w2) =>
        bind (endSpan span None) (fun _ => ret (Plain v)) w2
    | (Throw e, w2) => (Throw e, w2)
    end.
Proof.
  intros Hg. unfold wrapper. fold (gated config ambient). rewrite Hg.
  unfold bind at 1, startSpan, contextWith. cbv zeta.
  unfold bind at 1. rewrite callOriginalFunction_eq.
  unfold callContextOf, freshSpan.
  destruct (suppressInternalInstrumentation config);
  match goal with |- context [original ?c this args ?w'] =>
    destruct (original c this args w') as [[[v|p]|e] w2] end; reflexivity.
Qed.

(** [#endSpan] on a span that is still open. *)
Lemma endSpan_error span e w sp :
  spans w !! span = Some sp -> ended sp = false ->
  endSpan span (Some e) w
  = (Normal tt, MkWorld (<[span := failSpan e sp]> (spans w)) (calls w)).
Proof.
  intros Hsp He.
  unfold endSpan, bind, recordException, setStatus, spanEnd, onSpan.
  cbn [spans calls]. f_equal. f_equal.
  apply list_eq. intros i.
  destruct (decide (i = span)) as [->|Hne].
  - rewrite !list_lookup_alter_eq, Hsp. cbn.
    rewrite list_lookup_insert_eq by (eapply lookup_lt_Some; eauto).
    rewrite He. cbn. reflexivity.
  - rewrite !list_lookup_alter_ne by done.
    now rewrite list_lookup_insert_ne by done.
Qed.

Lemma endSpan_ok span w sp :
  spans w !! span = Some sp -> ended sp = false ->
  endSpan span None w
  = (Normal tt, MkWorld (<[span := okSpan sp]> (spans w)) (calls w)).
Proof.
  intros Hsp He. unfold endSpan, bind, setStatus, spanEnd, onSpan.
  cbn [spans calls]. f_equal. f_equal.
  apply list_eq. intros i.
  destruct (decide (i = span)) as [->|Hne].
  - rewrite !list_lookup_alter_eq, Hsp. cbn.
    rewrite list_lookup_insert_eq by (eapply lookup_lt_Some; eauto).
    rewrite He. cbn. reflexivity.
  - rewrite !list_lookup_alter_ne by done.
    now rewrite list_lookup_insert_ne by done.
Qed.

(** A synchronous return ends the span with status OK. *)
Lemma wrapper_sync_return
    config operation original ambient this args w v w2 sp :
  gated config ambient = false ->
  original (callContextOf config ambient (length (spans w))) this args
    (MkWorld (spans w ++ [freshSpan config operation ambient this args])
             (calls w))
  = (Normal (Plain v), w2) ->
  spans w2 !! length (spans w) = Some sp ->
  ended sp = false ->
  wrapper config operation original ambient this args w
  = (Normal (Plain v),
     MkWorld (<[length (spans w) := okSpan sp]> (spans w2)) (calls w2)).
Proof.
  intros Hg Ho Hsp He. rewrite wrapper_instrumented by exact Hg. cbv zeta.
  rewrite Ho. unfold bind. now rewrite (endSpan_ok _ _ _ Hsp He).
Qed.

(** A synchronous throw goes through the wrapper and no span operation
    runs after the original: the world is the one the original left. *)
Lemma wrapper_sync_throw config operation original ambient this args w e w2 :
  gated config ambient = false ->
  original (callContextOf config ambient (length (spans w))) this args
    (MkWorld (spans w ++ [freshSpan config operation ambient this args])
             (calls w))
  = (Throw e, w2) ->
  wrapper config operation original ambient this args w = (Throw e, w2).
Proof.
  intros Hg Ho. rewrite wrapper_instrumented by exact Hg. cbv zeta.
  now rewrite Ho.
Qed.

(** C1 (the source at the failing input): with the default configuration,
    a [query] whose original implementation throws synchronously lets the
    exception through and leaves the one span it started open, with its
    status unset and no exception recorded. *)
Theorem C1_sync_throw_leaves_span_open :
  let r := invoke DEFAULT_CONFIG (Wrapped "query" throwing) rootContext
             sampleClient [Some selectParams] emptyWorld in
  r.1 = Throw boom
  /\ length (spans r.2) = 1%nat
  /\ ended <$> spans r.2 !! 0%nat = Some false
  /\ status <$> spans r.2 !! 0%nat = Some UNSET
  /\ exceptions <$> spans r.2 !! 0%nat = Some [].
Proof. vm_compute. repeat split; reflexivity. Qed.

(** C3: for every intercepted call on the instrumented path whose
    original returns a thenable, the wrapper returns a thenable such
    that, whenever the original's thenable rejects with [e] while the
    span is open, the span gets [e] recorded, the status ERROR with the
    message of [e], and is ended, and the returned thenable rejects with
    the same [e]. *)
Theorem C3_rejection_recorded_and_resurfaced
    config operation original ambient this args w p w1 e :
  gated config ambient = false ->
  callOriginalFunction config original (setSpan ambient (length (spans w)))
    this args
    (MkWorld (spans w ++ [freshSpan config operation ambient this args])
             (calls w))
  = (Normal (Promise p), w1) ->
  exists p',
    wrapper config operation original ambient this args w
    = (Normal (Promise p'), w1)
    /\ forall w2 w3 sp,
         p w2 = (Rejected e, w3) ->
         spans w3 !! length (spans w) = Some sp ->
         ended sp = false ->
         p' w2 = (Rejected e,
                  MkWorld (<[length (spans w) := failSpan e sp]> (spans w3))
                          (calls w3)).
Proof.
  intros Hg Ho. rewrite callOriginalFunction_eq in Ho.
  rewrite wrapper_instrumented by exact Hg. cbv zeta.
  unfold callContextOf.
  destruct (suppressInternalInstrumentation config); rewrite Ho;
    (eexists; split; [reflexivity|]);
    intros w2 w3 sp Hp Hsp He; unfold then_; rewrite Hp;
    unfold bind; rewrite (endSpan_error _ _ _ _ Hsp He); reflexivity.
Qed.

Lemma C3_witness :
  exists p',
    invoke DEFAULT_CONFIG (Wrapped "query" rejecting) rootContext sampleClient
      [Some selectParams] emptyWorld
    = (Normal (Promise p'),
       MkWorld [freshSpan DEFAULT_CONFIG "query" rootContext sampleClient
                  [Some selectParams]]
               [MkCall (MkContext (Some 0%nat) true) sampleClient
                  [Some selectParams]])
    /\ p' (MkWorld [freshSpan DEFAULT_CONFIG "query" rootContext sampleClient
                      [Some selectParams]] [])
       = (Rejected boom,
          MkWorld [failSpan boom
                     (freshSpan DEFAULT_CONFIG "query" rootContext
                        sampleClient [Some selectParams])] []).
Proof.
  destruct (C3_rejection_recorded_and_resurfaced DEFAULT_CONFIG "query"
              (invoke DEFAULT_CONFIG rejecting) rootContext sampleClient
              [Some selectParams] emptyWorld
              (fun w => (Rejected boom, w))
              (MkWorld [freshSpan DEFAULT_CONFIG "query" rootContext
                          sampleClient [Some selectParams]]
                       [MkCall (MkContext (Some 0%nat) true) sampleClient
                          [Some selectParams]])
              boom eq_refl eq_refl) as [p' [H1 H2]].
  exists p'. split; [exact H1|].
  exact (H2 (MkWorld [freshSpan DEFAULT_CONFIG "query" rootContext
                        sampleClient [Some selectParams]] [])
            (MkWorld [freshSpan DEFAULT_CONFIG "query" rootContext
                        sampleClient [Some selectParams]] [])
            (freshSpan DEFAULT_CONFIG "query" rootContext sampleClient
               [Some selectParams])
            eq_refl eq_refl eq_refl).
Defined.

(** C6: for every intercepted call made while [requireParentSpan] is
    true and no span is active, the wrapper is the original called in the
    same context on the same receiver with the same arguments: same
    completion, same world, so no span is started. *)
Theorem C6_gating_passes_through
    config operation original ambient this args w :
  requireParentSpan config = true ->
  getSpan ambient = None ->
  wrapper config operation original ambient this args w
  = original ambient this args w.
Proof.
  intros Hr Hs. rewrite wrapper_gated; [reflexivity|].
  unfold gated. rewrite Hr, Hs. reflexivity.
Qed.

Lemma C6_witness :
  invoke requiringParent (Wrapped "query" returning)
    rootContext sampleClient [Some selectParams] emptyWorld
  = (Normal (Plain (Handle 7)),
     MkWorld [] [MkCall rootContext sampleClient [Some selectParams]]).
Proof.
  exact (C6_gating_passes_through requiringParent "query"
           (invoke requiringParent returning)
           rootContext sampleClient [Some selectParams] emptyWorld
           eq_refl eq_refl).
Defined.

Lemma invoke_native_gated config operation f ambient this args w :
  gated config ambient = true ->
  invoke config (Wrapped operation (Native f)) ambient this args w
  = (f this args, MkWorld (spans w) (calls w ++ [MkCall ambient this args])).
Proof. intros Hg. cbn [invoke]. now rewrite wrapper_gated. Qed.

Lemma invoke_native_calls config operation f ambient this args w :
  gated config ambient = false ->
  calls (invoke config (Wrapped operation (Native f)) ambient this args w).2
  = calls w ++ [MkCall (callContextOf config ambient (length (spans w)))
                  this args].
Proof.
  intros Hg. cbn [invoke]. rewrite wrapper_instrumented by exact Hg.
  cbv zeta. cbn [spans calls].
  destruct (f this args) as [[v|p]|e]; reflexivity.
Qed.

(** C9: when the gate passes a call through, the client method runs in
    the ambient context itself, with its suppression flag as it was,
    whatever [suppressInternalInstrumentation] says, and no span is
    started; on the instrumented path it runs in the context of the new
    span, flagged as suppressed when the option is set. *)
Theorem C9_no_suppression_on_pass_through
    config operation f ambient this args w :
  requireParentSpan config = true ->
  getSpan ambient = None ->
  let r := invoke config (Wrapped operation (Native f)) ambient this args w in
  calls r.2 = calls w ++ [MkCall ambient this args]
  /\ spans r.2 = spans w
  /\ (forall config' ambient',
        gated config' ambient' = false ->
        calls (invoke config' (Wrapped operation (Native f))
                 ambient' this args w).2
        = calls w ++
            [MkCall (MkContext (Some (length (spans w)))
                       (suppressInternalInstrumentation config'
                        || tracingSuppressed ambient'))
               this args]).
Proof.
  intros Hr Hs. cbv zeta.
  assert (Hg : gated config ambient = true)
    by (unfold gated; rewrite Hr, Hs; reflexivity).
  rewrite invoke_native_gated by exact Hg. cbn [snd calls spans].
  repeat split.
  intros config' ambient' Hg'. rewrite invoke_native_calls by exact Hg'.
  unfold callContextOf, suppressTracing, setSpan.
  now destruct (suppressInternalInstrumentation config').
Qed.

Lemma C9_witness :
  calls (invoke requiringParent (Wrapped "query" returning)
           rootContext sampleClient [Some selectParams] emptyWorld).2
  = [MkCall (MkContext None false) sampleClient [Some selectParams]].
Proof.
  exact (proj1 (C9_no_suppression_on_pass_through requiringParent "query"
                  (fun _ _ => Normal (Plain (Handle 7)))
                  rootContext sampleClient [Some selectParams] emptyWorld
                  eq_refl eq_refl)).
Defined.

End LifecycleResults.

(* ===================================================================== *)
(** * Method interceptor                                                  *)
(* ===================================================================== *)

Section InterceptorResults.

(** What [#wrapMethod] leaves in a slot that holds a function. *)
Lemma wrapMethod_lookup (prototype : gmap string Method)
    methodName operation m :
  prototype !! methodName = Some m ->
  wrapMethod prototype methodName operation
  = <[methodName := Wrapped operation (unwrapOnce m)]> prototype.
Proof.
  intros Hm. unfold wrapMethod, isWrapped, _unwrap, _wrap. rewrite Hm.
  destruct m as [f|op' original]; cbn [unwrapOnce].
  - now rewrite Hm.
  - rewrite lookup_insert_eq. now rewrite insert_insert_eq.
Qed.

Lemma wrapMethod_other (prototype : gmap string Method)
    methodName operation other :
  other <> methodName ->
  wrapMethod prototype methodName operation !! other = prototype !! other.
Proof.
  intros Hne. unfold wrapMethod, isWrapped, _unwrap, _wrap.
  destruct (prototype !! methodName) as [[f|op' original]|] eqn:Hm;
    rewrite ?Hm, ?lookup_insert_eq; rewrite ?lookup_insert_ne by done; done.
Qed.

Lemma wrapMethod_slot (prototype : gmap string Method)
    methodName operation i :
  wrapMethod prototype methodName operation !! i
  = if decide (i = methodName)
    then (fun m => Wrapped operation (unwrapOnce m))
           <$> prototype !! methodName
    else prototype !! i.
Proof.
  case_decide as Hi.
  - subst i. destruct (prototype !! methodName) as [m|] eqn:Hm.
    + rewrite (wrapMethod_lookup _ _ _ _ Hm), lookup_insert_eq. reflexivity.
    + unfold wrapMethod, isWrapped, _wrap. rewrite Hm. cbn. now rewrite Hm.
  - now apply wrapMethod_other.
Qed.

Lemma wrapMethod_idempotent (prototype : gmap string Method)
    methodName operation :
  wrapMethod (wrapMethod prototype methodName operation) methodName operation
  = wrapMethod prototype methodName operation.
Proof.
  apply map_eq. intros i. rewrite !wrapMethod_slot.
  case_decide; [|reflexivity]. subst i.
  rewrite decide_True by reflexivity.
  now destruct (prototype !! methodName).
Qed.

(** Loading the module twice patches it once. *)
Lemma patch_idempotent moduleExports :
  patch (patch moduleExports) = patch moduleExports.
Proof.
  destruct moduleExports as [[p|]]; [|reflexivity].
  unfold patch. cbn [ClickHouseClientPrototype].
  do 2 f_equal. apply map_eq. intros i.
  repeat (rewrite wrapMethod_slot; repeat case_decide; subst;
          try discriminate; try congruence);
  repeat match goal with
  | |- context [?m !! ?k] => is_var m; destruct (m !! k) as [[]|]; cbn
  end; reflexivity.
Qed.

Lemma installTimes_native n (prototype : gmap string Method)
    methodName operation f :
  prototype !! methodName = Some (Native f) ->
  installTimes (S n) methodName operation prototype
  = <[methodName := Wrapped operation (Native f)]> prototype.
Proof.
  intros Hm. induction n as [|n IH].
  - cbn. now rewrite (wrapMethod_lookup _ _ _ _ Hm).
  - change (installTimes (S (S n)) methodName operation prototype)
      with (wrapMethod (installTimes (S n) methodName operation prototype)
              methodName operation).
    rewrite IH.
    rewrite (wrapMethod_lookup _ _ _ (Wrapped operation (Native f)))
      by apply lookup_insert_eq.
    cbn [unwrapOnce]. now rewrite insert_insert_eq.
Qed.

(** C7: after any positive number of installs on a method that holds the
    client's own function, the slot holds exactly one wrapper, placed
    directly around that function; one uninstall gives back the prototype
    as it was, and the method behaves as the client's function again. *)
Theorem C7_install_idempotent
    (prototype : gmap string Method) methodName operation f n :
  prototype !! methodName = Some (Native f) ->
  let installed := installTimes (S n) methodName operation prototype in
  installed !! methodName = Some (Wrapped operation (Native f))
  /\ layers <$> installed !! methodName = Some 1%nat
  /\ _unwrap installed methodName = prototype
  /\ (forall config,
        invoke config <$> _unwrap installed methodName !! methodName
        = Some (invoke config (Native f))).
Proof.
  intros Hm. cbv zeta. rewrite (installTimes_native _ _ _ _ _ Hm).
  assert (Hu : _unwrap (<[methodName := Wrapped operation (Native f)]>
                          prototype) methodName = prototype).
  { unfold _unwrap. rewrite lookup_insert_eq, insert_insert_eq.
    now apply insert_id. }
  rewrite Hu, lookup_insert_eq, Hm. repeat split.
Qed.

Lemma C7_witness :
  samplePrototype !! "query" = Some returning
  /\ installTimes 3 "query" "query" samplePrototype !! "query"
     = Some (Wrapped "query" returning).
Proof.
  split; [reflexivity|].
  apply (C7_install_idempotent samplePrototype "query" "query"
           (fun _ _ => Normal (Plain (Handle 7))) 2).
  reflexivity.
Defined.

End InterceptorResults.

(* ===================================================================== *)
(** * The testable properties of the specification, evaluated             *)
(* ===================================================================== *)

Section Evaluated.

Example truncation_example :
  buildAttributes (MkConfig (Some 10%Z) false true) sampleClient "query"
    (Some "big_table") bigQuery !! ATTR_DB_QUERY_TEXT
  = Some (AStr "SELECT * F...").
Proof. vm_compute. reflexivity. Qed.

Example disabled_capture_example :
  buildAttributes (MkConfig (Some 0%Z) false true) sampleClient "query"
    (Some "big_table") bigQuery !! ATTR_DB_STATEMENT
  = None.
Proof. vm_compute. reflexivity. Qed.

Example insert_table_example :
  let t := extractTableName (Some (MkParams None None (Some "events")))
             "insert" in
  t = Some "events" /\ nameOfSpan "insert" t = "clickhouse.insert events".
Proof. vm_compute. split; reflexivity. Qed.

Example insert_trim_example :
  extractTableName (Some insertParams) "insert" = Some "events".
Proof. vm_compute. reflexivity. Qed.

Example insert_query_text_example :
  extractQueryText (Some (MkParams None None (Some "events"))) "insert"
  = "INSERT INTO events".
Proof. vm_compute. reflexivity. Qed.

Example select_table_example :
  parseTableFromQuery "SELECT a FROM `orders` WHERE id=1" = Some "orders".
Proof. vm_compute. reflexivity. Qed.

Example no_match_example :
  parseTableFromQuery "OPTIMIZE TABLE x" = None.
Proof. vm_compute. reflexivity. Qed.

Example update_example :
  parseTableFromQuery "  update db.t set x = 1" = Some "db.t"
  /\ parseTableFromQuery "ALTER TABLE t UPDATE x = 1 WHERE 1" = None.
Proof. vm_compute. split; reflexivity. Qed.

Example priority_example :
  parseTableFromQuery "INSERT INTO a SELECT * FROM b" = Some "b".
Proof. vm_compute. reflexivity. Qed.

Example normalize_example :
  normalizeQuery "  SELECT   a   FROM  t  " = "SELECT a FROM t".
Proof. vm_compute. reflexivity. Qed.

Example connection_example :
  let attrs := buildAttributes DEFAULT_CONFIG sampleClient "query" None "q" in
  attrs !! ATTR_SERVER_ADDRESS = Some (AStr "ch.local")
  /\ attrs !! ATTR_SERVER_PORT = Some (ANum (Num 8443))
  /\ attrs !! ATTR_DB_NAMESPACE = Some (AStr "default").
Proof. vm_compute. repeat split; reflexivity. Qed.

Example sync_return_example :
  let r := invoke DEFAULT_CONFIG (Wrapped "query" returning) rootContext
             sampleClient [Some selectParams] emptyWorld in
  r.1 = Normal (Plain (Handle 7))
  /\ status <$> spans r.2 !! 0%nat = Some OK
  /\ ended <$> spans r.2 !! 0%nat = Some true.
Proof. vm_compute. repeat split; reflexivity. Qed.

Example unpatch_example :
  unpatch (patch (MkExports (Some samplePrototype)))
  = MkExports (Some samplePrototype).
Proof. vm_compute. reflexivity. Qed.

End Evaluated.

(* ===================================================================== *)
(** * Further results: the wrapper                                        *)
(* ===================================================================== *)

Section WrapperResults.

Lemma freshSpan_open config operation ambient this args :
  ended (freshSpan config operation ambient this args) = false.
Proof. reflexivity. Qed.

Lemma lookup_started (l : list Span) sp : (l ++ [sp]) !! length l = Some sp.
Proof. rewrite lookup_app_r by lia. now rewrite Nat.sub_diag. Qed.

Lemma insert_started (l : list Span) sp sp' :
  <[length l := sp']> (l ++ [sp]) = l ++ [sp'].
Proof.
  rewrite insert_app_r_alt by lia. now rewrite Nat.sub_diag.
Qed.

(** A call to an instrumented client method on the instrumented path, by
    the way the client's function completes. *)
Lemma invoke_native_instrumented config operation f ambient this args w :
  gated config ambient = false ->
  let span := length (spans w) in
  let sp := freshSpan config operation ambient this args in
  let logged := calls w ++ [MkCall (callContextOf config ambient span) this args] in
  invoke config (Wrapped operation (Native f)) ambient this args w
  = match f this args with
    | Normal (Plain v) =>
        (Normal (Plain v), MkWorld (spans w ++ [okSpan sp]) logged)
    | Normal (Promise p) =>
        (Normal (Promise (then_ p
           (fun res => bind (endSpan span None) (fun _ => ret res))
           (fun err => bind (endSpan span (Some err)) (fun _ => throw err)))),
         MkWorld (spans w ++ [sp]) logged)
    | Throw e => (Throw e, MkWorld (spans w ++ [sp]) logged)
    end.
Proof.
  intros Hg. cbv zeta. cbn [invoke].
  rewrite wrapper_instrumented by exact Hg. cbv zeta. cbn [spans calls].
  destruct (f this args) as [[v|p]|e]; try reflexivity.
  unfold bind.
  rewrite (endSpan_ok _ _ (freshSpan config operation ambient this args));
    [|apply lookup_started | reflexivity].
  cbn [spans calls]. now rewrite insert_started.
Qed.

(** X1: on the instrumented path, when the original returns a value
    that is not a thenable and the span is still open, the wrapper ends
    the span with status OK and returns that value; nothing else in the
    world changes. *)
Theorem X1_sync_return_ends_span_ok
    config operation original ambient this args w v w2 sp :
  gated config ambient = false ->
  original (callContextOf config ambient (length (spans w))) this args
    (MkWorld (spans w ++ [freshSpan config operation ambient this args])
             (calls w))
  = (Normal (Plain v), w2) ->
  spans w2 !! length (spans w) = Some sp ->
  ended sp = false ->
  wrapper config operation original ambient this args w
  = (Normal (Plain v),
     MkWorld (<[length (spans w) := okSpan sp]> (spans w2)) (calls w2)).
Proof. apply wrapper_sync_return. Qed.

Lemma X1_witness :
  invoke DEFAULT_CONFIG (Wrapped "query" returning) rootContext sampleClient
    [Some selectParams] emptyWorld
  = (Normal (Plain (Handle 7)), MkWorld [okSpan startedSpan] [loggedCall]).
Proof.
  exact (X1_sync_return_ends_span_ok DEFAULT_CONFIG "query"
           (invoke DEFAULT_CONFIG returning) rootContext sampleClient
           [Some selectParams] emptyWorld (Handle 7) afterCall startedSpan
           eq_refl eq_refl eq_refl eq_refl).
Defined.

(** X2: on the instrumented path, when the thenable of the original is
    fulfilled with [v] while the span is open, the span gets status OK and
    is ended, and the thenable the wrapper returned is fulfilled with the
    same [v]. *)
Theorem X2_fulfilment_ends_span_ok
    config operation original ambient this args w p w1 v :
  gated config ambient = false ->
  callOriginalFunction config original (setSpan ambient (length (spans w)))
    this args
    (MkWorld (spans w ++ [freshSpan config operation ambient this args])
             (calls w))
  = (Normal (Promise p), w1) ->
  exists p',
    wrapper config operation original ambient this args w
    = (Normal (Promise p'), w1)
    /\ forall w2 w3 sp,
         p w2 = (Fulfilled v, w3) ->
         spans w3 !! length (spans w) = Some sp ->
         ended sp = false ->
         p' w2 = (Fulfilled v,
                  MkWorld (<[length (spans w) := okSpan sp]> (spans w3))
                          (calls w3)).
Proof.
  intros Hg Ho. rewrite callOriginalFunction_eq in Ho.
  rewrite wrapper_instrumented by exact Hg. cbv zeta.
  unfold callContextOf.
  destruct (suppressInternalInstrumentation config); rewrite Ho;
    (eexists; split; [reflexivity|]);
    intros w2 w3 sp Hp Hsp He; unfold then_; rewrite Hp;
    unfold bind; rewrite (endSpan_ok _ _ _ Hsp He); reflexivity.
Qed.

Lemma X2_witness :
  exists p',
    invoke DEFAULT_CONFIG (Wrapped "query" fulfilling) rootContext
      sampleClient [Some selectParams] emptyWorld
    = (Normal (Promise p'), afterCall)
    /\ p' afterCall
       = (Fulfilled (Handle 7), MkWorld [okSpan startedSpan] [loggedCall]).
Proof.
  destruct (X2_fulfilment_ends_span_ok DEFAULT_CONFIG "query"
              (invoke DEFAULT_CONFIG fulfilling) rootContext sampleClient
              [Some selectParams] emptyWorld
              (fun w => (Fulfilled (Handle 7), w)) afterCall (Handle 7)
              eq_refl eq_refl) as [p' [H1 H2]].
  exists p'. split; [exact H1|].
  exact (H2 afterCall afterCall startedSpan eq_refl eq_refl eq_refl).
Defined.

(** X3: the wrapper is transparent on the instrumented path.  A
    synchronous throw reaches the caller as the same error, in the world
    the original left; a plain value is returned as it is; a thenable is
    answered by a thenable that settles the same way (fulfilled with the
    same value, rejected with the same error, or never), and the client is
    not called again when it settles. *)
Theorem X3_result_is_transparent
    config operation original ambient this args w :
  gated config ambient = false ->
  let r0 := original (callContextOf config ambient (length (spans w)))
              this args
              (MkWorld
                 (spans w ++ [freshSpan config operation ambient this args])
                 (calls w)) in
  let r := wrapper config operation original ambient this args w in
  match r0.1 with
  | Throw e => r = (Throw e, r0.2)
  | Normal (Plain v) => r.1 = Normal (Plain v) /\ calls r.2 = calls r0.2
  | Normal (Promise p) =>
      exists p', r = (Normal (Promise p'), r0.2)
                 /\ forall w2, (p' w2).1 = (p w2).1
                               /\ calls (p' w2).2 = calls (p w2).2
                               /\ (forall w3, p w2 = (Pending, w3) ->
                                              p' w2 = (Pending, w3))
  end.
Proof.
  intros Hg. cbv zeta. rewrite wrapper_instrumented by exact Hg. cbv zeta.
  destruct (original _ this args _) as [[[v|p]|e] w2]; cbn [fst snd].
  - split; reflexivity.
  - eexists. split; [reflexivity|]. intros w3. unfold then_.
    destruct (p w3) as [[v|e|] w4]; cbn; repeat split; intros; congruence.
  - reflexivity.
Qed.

Lemma X3_witness :
  (invoke DEFAULT_CONFIG (Wrapped "query" returning) rootContext sampleClient
     [Some selectParams] emptyWorld).1
  = Normal (Plain (Handle 7)).
Proof.
  exact (proj1 (X3_result_is_transparent DEFAULT_CONFIG "query"
                  (invoke DEFAULT_CONFIG returning) rootContext sampleClient
                  [Some selectParams] emptyWorld eq_refl)).
Defined.

(** X4: one call to an instrumented client method starts exactly one
    span (none when the gate passes the call through), reaches the
    client's function exactly once, and leaves the spans and the calls
    recorded before it as they were. *)
Theorem X4_one_span_one_call_per_invocation
    config operation f ambient this args w :
  let r := invoke config (Wrapped operation (Native f)) ambient this args w in
  length (spans r.2)
    = (length (spans w) + (if gated config ambient then 0 else 1))%nat
  /\ firstn (length (spans w)) (spans r.2) = spans w
  /\ length (calls r.2) = S (length (calls w))
  /\ firstn (length (calls w)) (calls r.2) = calls w.
Proof.
  cbv zeta. destruct (gated config ambient) eqn:Hg.
  - rewrite invoke_native_gated by exact Hg. cbn [snd spans calls].
    rewrite Nat.add_0_r, firstn_all, length_app, take_app_length.
    repeat split. cbn. lia.
  - rewrite invoke_native_instrumented by exact Hg. cbv zeta.
    destruct (f this args) as [[v|p]|e]; cbn [snd spans calls];
      rewrite !length_app, !take_app_length; repeat split; cbn; lia.
Qed.

(** X5: the span an instrumented call starts is of kind CLIENT, its
    parent is the span active at the call, its [db.operation.name] is the
    operation, and its name is [clickhouse.] followed by the operation
    and, exactly when [db.collection.name] is set, a space and that table
    name. *)
Theorem X5_started_span_descriptor
    config operation f ambient this args w :
  gated config ambient = false ->
  let r := invoke config (Wrapped operation (Native f)) ambient this args w in
  exists sp,
    spans r.2 !! length (spans w) = Some sp
    /\ kind sp = CLIENT
    /\ parent sp = activeSpan ambient
    /\ attributes sp !! ATTR_DB_OPERATION_NAME = Some (AStr operation)
    /\ spanName sp
       = "clickhouse." +:+ operation
           +:+ tableSuffix (attributes sp !! ATTR_DB_COLLECTION_NAME).
Proof.
  intros Hg. cbv zeta.
  rewrite invoke_native_instrumented by exact Hg. cbv zeta.
  set (sp := freshSpan config operation ambient this args).
  assert (Hsp : attributes sp !! ATTR_DB_OPERATION_NAME = Some (AStr operation)
          /\ spanName sp
             = "clickhouse." +:+ operation
                 +:+ tableSuffix (attributes sp !! ATTR_DB_COLLECTION_NAME)).
  { subst sp. unfold freshSpan. cbn [attributes spanName].
    set (t := extractTableName (firstArg args) operation).
    set (q := extractQueryText (firstArg args) operation).
    unfold buildAttributes, nameOfSpan.
    destruct (connectionParams this) as [[[u|] d]|]; cbn [url database];
      try destruct (truthy (port u));
      try destruct (field d);
      destruct (field t);
      destruct ((0 <? default 2048 (maxQueryLength config))%Z && truthy q);
      split; attr_lookup; cbn [tableSuffix];
      rewrite ?append_nil_r; reflexivity. }
  destruct Hsp as [Ha Hn].
  destruct (f this args) as [[v|p]|e]; cbn [snd spans];
    rewrite lookup_started; eexists; (split; [reflexivity|]);
    repeat split; assumption.
Qed.

Lemma X5_witness :
  exists sp,
    spans (invoke DEFAULT_CONFIG (Wrapped "query" throwing) rootContext
             sampleClient [Some selectParams] emptyWorld).2 !! 0%nat
    = Some sp
    /\ kind sp = CLIENT.
Proof.
  destruct (X5_started_span_descriptor DEFAULT_CONFIG "query"
              (fun _ _ => Throw boom) rootContext sampleClient
              [Some selectParams] emptyWorld eq_refl) as [sp [H1 [H2 _]]].
  exists sp. split; [exact H1 | exact H2].
Defined.

End WrapperResults.

(* ===================================================================== *)
(** * Further results: the attribute builder                              *)
(* ===================================================================== *)

Section MoreAttributeResults.

Local Open Scope Z_scope.

Lemma length_take n (s : string) :
  (String.length (JsString.take n s) <= n)%nat.
Proof.
  revert s. induction n as [|n IH]; intros [|c s]; simpl; try lia.
  specialize (IH s). lia.
Qed.

(** X6: every attribute build carries [db.system.name] and [db.system]
    with the value [clickhouse] and [db.operation.name] and
    [db.operation] with the operation, whatever else is written later;
    [db.collection.name] is set exactly when the table name is not empty,
    and then to it. *)
Theorem X6_identity_attributes
    config client operation tableName queryText :
  let attrs := buildAttributes config client operation tableName queryText in
  attrs !! ATTR_DB_SYSTEM_NAME = Some (AStr "clickhouse")
  /\ attrs !! ATTR_DB_SYSTEM = Some (AStr "clickhouse")
  /\ attrs !! ATTR_DB_OPERATION_NAME = Some (AStr operation)
  /\ attrs !! ATTR_DB_OPERATION = Some (AStr operation)
  /\ attrs !! ATTR_DB_COLLECTION_NAME = AStr <$> field tableName.
Proof.
  unfold buildAttributes.
  destruct (connectionParams client) as [[[u|] d]|]; cbn [url database];
    try destruct (truthy (port u));
    try destruct (field d);
    destruct (field tableName);
    destruct ((0 <? default 2048 (maxQueryLength config)) && truthy queryText);
    cbn [fmap option_fmap option_map];
    repeat split; attr_lookup; reflexivity.
Qed.

(** X7: an attribute build never sets a key outside the eleven keys of
    the constants module. *)
Theorem X7_no_other_attribute
    config client operation tableName queryText (key : string) :
  key ∉ attrKeys ->
  buildAttributes config client operation tableName queryText !! key = None.
Proof.
  intros Hk. unfold attrKeys in Hk.
  rewrite !not_elem_of_cons in Hk.
  destruct Hk as (H1 & H2 & H3 & H4 & H5 & H6 & H7 & H8 & H9 & H10 & H11 & _).
  unfold buildAttributes.
  destruct (connectionParams client) as [[[u|] d]|]; cbn [url database];
    try destruct (truthy (port u));
    try destruct (field d);
    destruct (field tableName);
    destruct ((0 <? default 2048 (maxQueryLength config)) && truthy queryText);
    repeat (rewrite lookup_insert_ne by congruence);
    apply lookup_empty.
Qed.

Lemma X7_witness :
  buildAttributes DEFAULT_CONFIG sampleClient "query" (Some "t") "q"
    !! "db.query.parameter" = None.
Proof.
  apply (X7_no_other_attribute DEFAULT_CONFIG sampleClient "query"
           (Some "t") "q" "db.query.parameter").
  vm_compute. intros H. repeat (apply elem_of_cons in H as [H|H]; [discriminate|]).
  now apply elem_of_nil in H.
Defined.

(** X8: when [db.query.text] is set it is a text of at most
    [maxQueryLength] + 3 characters (2048 + 3 when the option is
    undefined). *)
Theorem X8_query_text_length_bound
    config client operation tableName queryText :
  match buildAttributes config client operation tableName queryText
          !! ATTR_DB_QUERY_TEXT with
  | Some (AStr v) =>
      Z.of_nat (String.length v) <= default 2048 (maxQueryLength config) + 3
  | Some (ANum _) => False
  | None => True
  end.
Proof.
  destruct (queryText_lookups config client operation tableName queryText)
    as [-> _].
  unfold queryTextAttr. set (m := default 2048 (maxQueryLength config)).
  destruct (0 <? m) eqn:Hm; [|exact I].
  destruct (truthy queryText); [|exact I]. cbn [andb].
  apply Z.ltb_lt in Hm.
  destruct (Z.leb_spec (Z.of_nat (String.length queryText)) m); [lia|].
  rewrite length_append. pose proof (length_take (Z.to_nat m) queryText).
  cbn [String.length]. lia.
Qed.

Lemma port_lookup config client operation tableName queryText :
  buildAttributes config client operation tableName queryText
    !! ATTR_SERVER_PORT
  = match connUrl client with
    | Some u =>
        if truthy (port u) then Some (ANum (parseInt10 (port u))) else None
    | None => None
    end.
Proof.
  unfold buildAttributes, connUrl.
  destruct (connectionParams client) as [[[u|] d]|]; cbn [url database];
    try destruct (truthy (port u));
    try destruct (field d);
    destruct (field tableName);
    destruct ((0 <? default 2048 (maxQueryLength config)) && truthy queryText);
    attr_lookup; reflexivity.
Qed.

(** X9: when the URL of the client has a port made of decimal digits,
    [server.port] is the number those digits denote. *)
Theorem X9_port_of_digits
    config client operation tableName queryText u :
  connUrl client = Some u ->
  truthy (port u) = true ->
  allChars isDigit (port u) = true ->
  buildAttributes config client operation tableName queryText
    !! ATTR_SERVER_PORT
  = Some (ANum (Num (digitsValue 0 (port u)))).
Proof.
  intros Hu Hp Hd. rewrite port_lookup, Hu, Hp.
  now rewrite parseInt10_digits.
Qed.

Lemma X9_witness :
  buildAttributes DEFAULT_CONFIG sampleClient "query" None "q"
    !! ATTR_SERVER_PORT
  = Some (ANum (Num 8443)).
Proof.
  exact (X9_port_of_digits DEFAULT_CONFIG sampleClient "query" None "q"
           (MkURL "ch.local" "8443") eq_refl eq_refl eq_refl).
Defined.

End MoreAttributeResults.

(* ===================================================================== *)
(** * Further results: the query analyzer                                 *)
(* ===================================================================== *)

Section NormalizeResults.

Lemma spaced_weaken s : spaced true s = true -> spaced false s = true.
Proof.
  destruct s as [|c s]; [reflexivity|]. cbn [spaced].
  destruct (isSpace c); [|auto]. rewrite andb_false_r. discriminate.
Qed.

Lemma spaced_collapse s : forall b,
  spaced b (AnalyzerSpec.collapse b s) = true.
Proof.
  induction s as [|c s IH]; intros b; [reflexivity|].
  cbn [AnalyzerSpec.collapse]. destruct (isSpace c) eqn:Hc.
  - destruct b; [apply IH|]. cbn [spaced].
    change (isSpace " ") with true. cbv iota.
    rewrite IH. reflexivity.
  - cbn [spaced]. rewrite Hc. apply IH.
Qed.

Lemma spaced_dropWhile s : forall b,
  spaced b s = true -> spaced true (dropWhile isSpace s) = true.
Proof.
  induction s as [|c s IH]; intros b H; [reflexivity|].
  cbn [dropWhile]. cbn [spaced] in H. destruct (isSpace c) eqn:Hc.
  - apply andb_true_iff in H as [_ H]. now apply (IH true).
  - cbn [spaced]. now rewrite Hc.
Qed.

Lemma trimEnd_empty s : allChars isSpace s = true -> trimEnd s = EmptyString.
Proof.
  destruct s as [|c s]; [reflexivity|]. cbn. intros H.
  apply andb_true_iff in H as [-> ->]. reflexivity.
Qed.

Lemma spaced_trimEnd s : forall b,
  spaced b s = true -> spaced b (trimEnd s) = true.
Proof.
  induction s as [|c s IH]; intros b H; [reflexivity|].
  cbn [trimEnd]. destruct (isSpace c && allChars isSpace s); [reflexivity|].
  cbn [spaced] in H |- *. destruct (isSpace c).
  - apply andb_true_iff in H as [H1 H2]. rewrite H1. now apply IH.
  - now apply IH.
Qed.

Lemma trimEnd_nonempty_inv s :
  trimEnd s = EmptyString -> allChars isSpace s = true.
Proof.
  destruct s as [|c s]; [reflexivity|]. cbn [trimEnd allChars].
  destruct (isSpace c && allChars isSpace s); [reflexivity | discriminate].
Qed.

Lemma lastIsSpace_trimEnd s : lastIsSpace (trimEnd s) = false.
Proof.
  induction s as [|c s IH]; [reflexivity|].
  cbn [trimEnd]. destruct (isSpace c && allChars isSpace s) eqn:E;
    [reflexivity|].
  cbn [lastIsSpace]. destruct (trimEnd s) as [|c' s'] eqn:Et; [|exact IH].
  rewrite (trimEnd_nonempty_inv s Et), andb_true_r in E. exact E.
Qed.

Lemma allSpace_last c s :
  isSpace c = true -> allChars isSpace s = true ->
  lastIsSpace (String c s) = true.
Proof.
  revert c. induction s as [|c' s IH]; intros c Hc H; [exact Hc|].
  cbn [allChars] in H. apply andb_true_iff in H as [H1 H2].
  change (lastIsSpace (String c (String c' s)))
    with (lastIsSpace (String c' s)). now apply IH.
Qed.

Lemma trimEnd_id s : lastIsSpace s = false -> trimEnd s = s.
Proof.
  induction s as [|c s IH]; intros H; [reflexivity|].
  cbn [trimEnd]. destruct (isSpace c && allChars isSpace s) eqn:E.
  - apply andb_true_iff in E as [E1 E2].
    rewrite (allSpace_last c s E1 E2) in H. discriminate.
  - f_equal. destruct s as [|c' s']; [reflexivity|]. apply IH. exact H.
Qed.

Lemma collapse_id s : forall b, spaced b s = true ->
  AnalyzerSpec.collapse b s = s.
Proof.
  induction s as [|c s IH]; intros b H; [reflexivity|].
  cbn [AnalyzerSpec.collapse]. cbn [spaced] in H. destruct (isSpace c).
  - apply andb_true_iff in H as [H H2]. apply andb_true_iff in H as [H0 H1].
    apply negb_true_iff in H1. subst b.
    apply N.eqb_eq in H0.
    assert (c = " "%char) as ->.
    { rewrite <- (ascii_N_embedding c). unfold code in H0. now rewrite H0. }
    now rewrite (IH true H2).
  - now rewrite (IH false H).
Qed.

Lemma dropWhile_id s : spaced true s = true -> dropWhile isSpace s = s.
Proof.
  destruct s as [|c s]; [reflexivity|]. cbn [spaced dropWhile].
  destruct (isSpace c); [|reflexivity]. rewrite andb_false_r. discriminate.
Qed.

Lemma normalize_fixed s :
  isNormalized s = true -> AnalyzerSpec.normalize s = s.
Proof.
  unfold isNormalized. intros H. apply andb_true_iff in H as [H1 H2].
  apply negb_true_iff in H2.
  unfold AnalyzerSpec.normalize, trim.
  rewrite (collapse_id s false (spaced_weaken s H1)).
  rewrite (dropWhile_id s H1). now apply trimEnd_id.
Qed.

Lemma normalize_isNormalized q :
  isNormalized (AnalyzerSpec.normalize q) = true.
Proof.
  unfold isNormalized, AnalyzerSpec.normalize, trim.
  rewrite lastIsSpace_trimEnd, andb_true_r.
  apply spaced_trimEnd. eapply spaced_dropWhile. apply spaced_collapse.
Qed.

(** X10: the result of [#normalizeQuery] has no white space at either
    end and no white space inside other than single spaces, and
    normalizing it again changes nothing. *)
Theorem X10_normalizeQuery_normal_form (q : string) :
  isNormalized (normalizeQuery q) = true
  /\ normalizeQuery (normalizeQuery q) = normalizeQuery q.
Proof.
  rewrite !normalizeQuery_normalize. split.
  - apply normalize_isNormalized.
  - apply normalize_fixed, normalize_isNormalized.
Qed.

End NormalizeResults.

Section PatternResults.

Lemma reach_trans p s p1 s1 p2 s2 :
  Reach p s p1 s1 -> Reach p1 s1 p2 s2 -> Reach p s p2 s2.
Proof. induction 1; intros H2; [exact H2 | constructor; auto]. Qed.

(** A scan that finds nothing finds nothing at any later position. *)
Lemma find_none_reach ws p s p' s' :
  Reach p s p' s' -> AnalyzerSpec.find ws p s = None ->
  isWordOpt p' = false -> AnalyzerSpec.phrase ws s' = None.
Proof.
  induction 1 as [p s | p c s p' s' H IH]; intros Hf Hp.
  - destruct s; cbn [AnalyzerSpec.find] in Hf; rewrite Hp in Hf;
      destruct (AnalyzerSpec.phrase ws _); congruence.
  - apply IH; [|exact Hp]. cbn [AnalyzerSpec.find] in Hf.
    destruct (if isWordOpt p then None else AnalyzerSpec.phrase ws (String c s));
      [discriminate | exact Hf].
Qed.

(** A scan that finds something finds it at some position. *)
Lemma find_some_reach ws s : forall p t,
  AnalyzerSpec.find ws p s = Some t ->
  exists p' s', Reach p s p' s' /\ AnalyzerSpec.phrase ws s' = Some t.
Proof.
  induction s as [|c s IH]; intros p t Hf; cbn [AnalyzerSpec.find] in Hf.
  - destruct (isWordOpt p); [discriminate|].
    destruct (AnalyzerSpec.phrase ws EmptyString) eqn:E; [|discriminate].
    injection Hf as <-. exists p, EmptyString. split; [constructor | exact E].
  - destruct (if isWordOpt p then None else AnalyzerSpec.phrase ws (String c s))
      as [t'|] eqn:E.
    + injection Hf as <-. destruct (isWordOpt p); [discriminate|].
      exists p, (String c s). split; [constructor | exact E].
    + destruct (IH _ _ Hf) as (p' & s' & Hr & Hp).
      exists p', s'. split; [now constructor | exact Hp].
Qed.

Lemma keyword_reach w : forall s s1 p,
  AnalyzerSpec.keyword w s = Some s1 -> exists p1, Reach p s p1 s1.
Proof.
  induction w as [|a w IH]; intros s s1 p H; cbn [AnalyzerSpec.keyword] in H.
  - injection H as <-. exists p. constructor.
  - destruct s as [|c s]; [discriminate|].
    destruct (AnalyzerSpec.sameLetter c a); [|discriminate].
    destruct (IH s s1 (Some c) H) as [p1 Hr]. exists p1. now constructor.
Qed.

Lemma dropWhile_reach s : forall c, isSpace c = true ->
  exists c', isSpace c' = true /\ Reach (Some c) s (Some c') (dropWhile isSpace s).
Proof.
  induction s as [|x s IH]; intros c Hc.
  - exists c. split; [exact Hc | constructor].
  - cbn [dropWhile]. destruct (isSpace x) eqn:Hx.
    + destruct (IH x Hx) as (c' & Hc' & Hr). exists c'.
      split; [exact Hc' | now constructor].
    + exists c. split; [exact Hc | constructor].
Qed.

Lemma spaces_reach s s2 p :
  AnalyzerSpec.spaces s = Some s2 ->
  exists c', isSpace c' = true /\ Reach p s (Some c') s2.
Proof.
  unfold AnalyzerSpec.spaces. destruct s as [|c s]; [discriminate|].
  destruct (isSpace c) eqn:Hc; [|discriminate]. intros [= <-].
  destruct (dropWhile_reach s c Hc) as (c' & Hc' & Hr).
  exists c'. split; [exact Hc' | now constructor].
Qed.

Lemma space_not_word c : isSpace c = true -> isWordChar c = false.
Proof.
  intros Hc. destruct (space_classes c Hc) as [_ H].
  unfold isIdentChar in H. now apply orb_false_iff in H as [H _].
Qed.

(** Where a phrase of two keywords stands, the phrase of the second
    keyword stands a little further, after white space. *)
Lemma find_second_keyword w1 w2 q :
  AnalyzerSpec.find [w2] None q = None ->
  AnalyzerSpec.find [w1; w2] None q = None.
Proof.
  intros Hn. destruct (AnalyzerSpec.find [w1; w2] None q) as [t|] eqn:E;
    [|reflexivity].
  destruct (find_some_reach _ _ _ _ E) as (p' & s' & Hr & Hp).
  cbn [AnalyzerSpec.phrase] in Hp.
  destruct (AnalyzerSpec.keyword w1 s') as [s1|] eqn:Hk; [|discriminate].
  destruct (AnalyzerSpec.spaces s1) as [s2|] eqn:Hs; [|discriminate].
  destruct (keyword_reach w1 s' s1 p' Hk) as [p1 Hr1].
  destruct (spaces_reach s1 s2 p1 Hs) as (c' & Hc' & Hr2).
  pose proof (reach_trans _ _ _ _ _ _ Hr (reach_trans _ _ _ _ _ _ Hr1 Hr2))
    as Hall.
  pose proof (find_none_reach [w2] _ _ _ _ Hall Hn
                (space_not_word c' Hc')) as Hnone.
  cbn [AnalyzerSpec.phrase] in Hnone. congruence.
Qed.

Lemma fmap_some_none {A} (x : option A) :
  Some <$> x = None -> x = None.
Proof. now destruct x. Qed.

(** X11: a query in which the FROM pattern finds nothing has no match
    of the DELETE FROM pattern either, so the fourth pattern of
    [#parseTableFromQuery] never decides a table name. *)
Theorem X11_delete_pattern_subsumed (q : string) :
  jsMatch reFrom q = None -> jsMatch reDeleteFrom q = None.
Proof.
  change reFrom with (Boundary :: phraseNodes ["FROM"]).
  change reDeleteFrom with (Boundary :: phraseNodes ["DELETE"; "FROM"]).
  rewrite !jsMatch_find by reflexivity. intros H.
  apply fmap_some_none in H.
  now rewrite (find_second_keyword "DELETE" "FROM" q H).
Qed.

Lemma X11_witness : jsMatch reDeleteFrom "OPTIMIZE TABLE x" = None.
Proof. exact (X11_delete_pattern_subsumed "OPTIMIZE TABLE x" eq_refl). Defined.

Lemma keyword_allChars P w : forall s s1,
  AnalyzerSpec.keyword w s = Some s1 ->
  allChars P s = true -> allChars P s1 = true.
Proof.
  induction w as [|a w IH]; intros s s1 H Hs; cbn [AnalyzerSpec.keyword] in H.
  - now injection H as <-.
  - destruct s as [|c s]; [discriminate|].
    destruct (AnalyzerSpec.sameLetter c a); [|discriminate].
    cbn [allChars] in Hs. apply andb_true_iff in Hs as [_ Hs]. eauto.
Qed.

Lemma phrase_needs_space w ws s :
  allChars notSpace s = true -> AnalyzerSpec.phrase (w :: ws) s = None.
Proof.
  intros Hs. cbn [AnalyzerSpec.phrase].
  destruct (AnalyzerSpec.keyword w s) as [s1|] eqn:Hk; [|reflexivity].
  pose proof (keyword_allChars _ _ _ _ Hk Hs) as H1.
  unfold AnalyzerSpec.spaces. destruct s1 as [|c s1]; [reflexivity|].
  cbn [allChars] in H1. apply andb_true_iff in H1 as [Hc _].
  unfold notSpace in Hc. apply negb_true_iff in Hc. now rewrite Hc.
Qed.

Lemma find_needs_space w ws s : forall p,
  allChars notSpace s = true -> AnalyzerSpec.find (w :: ws) p s = None.
Proof.
  induction s as [|c s IH]; intros p Hs; cbn [AnalyzerSpec.find];
    rewrite (phrase_needs_space w ws _ Hs); destruct (isWordOpt p);
    try reflexivity;
    cbn [allChars] in Hs; apply andb_true_iff in Hs as [_ Hs]; now apply IH.
Qed.

(** X13: a query text without any white-space character never yields
    a table name. *)
Theorem X13_no_white_space_no_table (q : string) :
  allChars notSpace q = true -> parseTableFromQuery q = None.
Proof.
  intros Hq. rewrite parseTableFromQuery_refines.
  unfold AnalyzerSpec.parseTable.
  rewrite !(find_needs_space _ _ q None Hq).
  now destruct (startsWith "UPDATE" _), (startsWith "DELETE" _).
Qed.

Lemma X13_witness : parseTableFromQuery "SELECT(1)FROM`t`" = None.
Proof. exact (X13_no_white_space_no_table "SELECT(1)FROM`t`" eq_refl). Defined.

(** X12: for an operation other than [insert], the [table] and the
    [query_id] of the params play no part in the table name. *)
Theorem X12_other_operations_ignore_table p operation t' id' :
  String.eqb operation "insert" = false ->
  extractTableName (Some (MkParams (query p) id' t')) operation
  = extractTableName (Some p) operation.
Proof.
  intros H. now rewrite !extractTableName_other by exact H.
Qed.

Lemma X12_witness :
  extractTableName (Some updateParams) "command" = Some "t".
Proof.
  etransitivity;
    [exact (X12_other_operations_ignore_table
              (MkParams (Some "UPDATE t SET x = 1") None None) "command"
              (Some "other") (Some "id-1") eq_refl)
    | reflexivity].
Defined.

End PatternResults.

(* ===================================================================== *)
(** * Further results: the interceptor and the constructor                *)
(* ===================================================================== *)

Section MoreInterceptorResults.

Lemma unwrap_slot (prototype : gmap string Method) methodName i :
  _unwrap prototype methodName !! i
  = if decide (i = methodName)
    then unwrapOnce <$> prototype !! methodName
    else prototype !! i.
Proof.
  unfold _unwrap.
  destruct (prototype !! methodName) as [[f|op original]|] eqn:Hm;
    case_decide; subst; rewrite ?Hm, ?lookup_insert_eq;
    rewrite ?lookup_insert_ne by done; reflexivity.
Qed.

(** X14: [#wrapMethod] never stacks wrappers: on a slot that is already
    wrapped the number of layers stays the same, on any other function it
    becomes one more. *)
Theorem X14_install_never_stacks
    (prototype : gmap string Method) methodName operation m :
  prototype !! methodName = Some m ->
  layers <$> wrapMethod prototype methodName operation !! methodName
  = Some (if isWrapped (Some m) then layers m else S (layers m)).
Proof.
  intros Hm. rewrite (wrapMethod_lookup _ _ _ _ Hm), lookup_insert_eq.
  now destruct m.
Qed.

Lemma X14_witness :
  layers <$> wrapMethod (<["query" := Wrapped "exec" returning]> samplePrototype)
               "query" "query" !! "query"
  = Some 1%nat.
Proof.
  exact (X14_install_never_stacks
           (<["query" := Wrapped "exec" returning]> samplePrototype)
           "query" "query" (Wrapped "exec" returning) eq_refl).
Defined.

Lemma patch_slot (p : gmap string Method) (name : string) :
  wrapMethod (wrapMethod (wrapMethod (wrapMethod p
     "query" "query") "insert" "insert") "command" "command")
     "exec" "exec" !! name
  = if bool_decide (name ∈ instrumented)
    then (fun m => Wrapped name (unwrapOnce m)) <$> p !! name
    else p !! name.
Proof.
  unfold instrumented. rewrite !wrapMethod_slot.
  repeat case_decide; subst; try discriminate;
    first
      [ rewrite bool_decide_true
          by (rewrite !elem_of_cons; intuition congruence);
        reflexivity
      | rewrite bool_decide_false
          by (rewrite !elem_of_cons, elem_of_nil; intuition congruence);
        reflexivity ].
Qed.

(** X15: the patch callback of [init] touches exactly the methods
    [query], [insert], [command] and [exec]: each one that the prototype
    has is wrapped for the operation of the same name (a wrapper already
    there is replaced), and every other property is left as it is. *)
Theorem X15_patch_instruments_four_methods
    (p : gmap string Method) (name : string) :
  (fun p' => p' !! name) <$> ClickHouseClientPrototype (patch (MkExports (Some p)))
  = Some (if bool_decide (name ∈ instrumented)
          then (fun m => Wrapped name (unwrapOnce m)) <$> p !! name
          else p !! name).
Proof. unfold patch. cbn. f_equal. apply patch_slot. Qed.

(** X16: patching a module twice gives what patching it once gives;
    exports without a client prototype are returned unchanged by both
    callbacks. *)
Theorem X16_patch_is_idempotent moduleExports :
  patch (patch moduleExports) = patch moduleExports
  /\ patch (MkExports None) = MkExports None
  /\ unpatch (MkExports None) = MkExports None.
Proof. split; [apply patch_idempotent | split; reflexivity]. Qed.

(** X17: when none of the four methods is wrapped beforehand, unpatch
    after patch gives back the exports as they were, and unpatch alone
    changes nothing. *)
Theorem X17_unpatch_undoes_patch (p : gmap string Method) :
  forallb (fun name => negb (isWrapped (p !! name))) instrumented = true ->
  unpatch (patch (MkExports (Some p))) = MkExports (Some p)
  /\ unpatch (MkExports (Some p)) = MkExports (Some p).
Proof.
  intros H. cbn [forallb instrumented] in H.
  repeat (apply andb_true_iff in H as [?H H]).
  assert (Hid : forall name, negb (isWrapped (p !! name)) = true ->
                  unwrapOnce <$> p !! name = p !! name).
  { intros name Hn. destruct (p !! name) as [[f|op m]|]; try reflexivity.
    discriminate. }
  assert (Hid2 : forall name, negb (isWrapped (p !! name)) = true ->
                  unwrapOnce <$> ((fun m => Wrapped name (unwrapOnce m))
                                   <$> p !! name) = p !! name).
  { intros name Hn. destruct (p !! name) as [[f|op m]|]; try reflexivity.
    discriminate. }
  split.
  - unfold unpatch, patch. cbn [ClickHouseClientPrototype].
    do 2 f_equal. apply map_eq. intros i.
    rewrite !unwrap_slot, !patch_slot.
    repeat case_decide; subst; try discriminate;
      rewrite ?bool_decide_true
        by (unfold instrumented; rewrite !elem_of_cons; intuition congruence);
      rewrite ?bool_decide_false
        by (unfold instrumented; rewrite !elem_of_cons, elem_of_nil;
            intuition congruence);
      rewrite ?Hid2 by assumption; reflexivity.
  - unfold unpatch. cbn [ClickHouseClientPrototype].
    do 2 f_equal. apply map_eq. intros i.
    rewrite !unwrap_slot.
    repeat case_decide; subst; try discriminate;
      rewrite ?Hid by assumption; reflexivity.
Qed.

Lemma X17_witness :
  unpatch (patch (MkExports (Some samplePrototype)))
  = MkExports (Some samplePrototype).
Proof.
  exact (proj1 (X17_unpatch_undoes_patch samplePrototype eq_refl)).
Defined.

(** X18: constructing with [maxQueryLength] given as [undefined]
    builds the same attributes as leaving the option out: the query text
    is captured up to 2048 characters. *)
Theorem X18_undefined_length_is_default
    (u : UserConfig) client operation tableName queryText :
  userMaxQueryLength u = Given None ->
  buildAttributes (construct u) client operation tableName queryText
  = buildAttributes
      (construct (MkUserConfig Absent (userRequireParentSpan u)
                    (userSuppressInternalInstrumentation u)))
      client operation tableName queryText.
Proof.
  intros H. unfold buildAttributes, construct. rewrite H. reflexivity.
Qed.

Lemma X18_witness :
  buildAttributes (construct (MkUserConfig (Given None) Absent Absent))
    sampleClient "query" None bigQuery !! ATTR_DB_QUERY_TEXT
  = Some (AStr bigQuery).
Proof.
  rewrite (X18_undefined_length_is_default
             (MkUserConfig (Given None) Absent Absent)
             sampleClient "query" None bigQuery eq_refl).
  reflexivity.
Defined.

End MoreInterceptorResults.
